(** * Social Bounty Hunt: the client-side controller

    A shallow embedding of the React front end of the Social Bounty Hunt
    application:

    - [App] (session gating, registration check, transaction notifier,
      credit handler, sign-out), and
    - [Overview] (deed feed retrieval, row partition, credit affordance).

    JavaScript strings are sequences of UTF-16 code units, component state
    is threaded explicitly, remote calls are recorded in a request log and
    a JavaScript exception or a rejected promise is a [Throw] completion. *)

From Stdlib Require Import List ZArith NArith Bool Ascii String Lia.
From Stdlib Require Import DecimalString DecimalPos.
Import ListNotations.

(** ** The JavaScript values and built-ins the components rely on *)

Module Js.

(** A string is a sequence of UTF-16 code units. *)
Definition jsstring := list N.

(** An ASCII literal of the source text. *)
Definition lit (s : string) : jsstring :=
  map N_of_ascii (list_ascii_of_string s).

(** [===] on two strings. *)
Fixpoint eqb (a b : jsstring) : bool :=
  match a, b with
  | [], [] => true
  | x :: a', y :: b' => N.eqb x y && eqb a' b'
  | _, _ => false
  end.

(** ToBoolean on a string-or-null value: [null], [undefined] and the empty
    string are falsy. *)
Definition truthy (v : option jsstring) : bool :=
  match v with
  | None => false
  | Some [] => false
  | Some (_ :: _) => true
  end.

(** The string held by a truthy string-or-null value. *)
Definition text (v : option jsstring) : jsstring :=
  match v with
  | Some s => s
  | None => []
  end.

(** What a piece of code can end with other than a value. *)
Inductive exn :=
| URIError
| TypeError
| Rejected (reason : jsstring).

Inductive completion (A : Type) :=
| Normal (a : A)
| Throw (e : exn).
Arguments Normal {A} a.
Arguments Throw {A} e.

(** The values a ledger view method hands back for a counter or an id:
    an integral number or a string. *)
Inductive value :=
| JNum (z : Z)
| JStr (s : jsstring).

(** ToString.  An integral number below 10^21 in magnitude prints as its
    decimal digits. *)
Definition ToString (v : value) : jsstring :=
  match v with
  | JNum z => lit (NilZero.string_of_int (Z.to_int z))
  | JStr s => s
  end.

(** *** parseInt *)

Definition isWhiteSpace (c : N) : bool :=
  ((9 <=? c) && (c <=? 13) || (c =? 32) || (c =? 160) || (c =? 5760)
   || (8192 <=? c) && (c <=? 8202) || (c =? 8232) || (c =? 8233)
   || (c =? 8239) || (c =? 8287) || (c =? 12288) || (c =? 65279))%N.

Fixpoint trimStart (s : jsstring) : jsstring :=
  match s with
  | c :: rest => if isWhiteSpace c then trimStart rest else s
  | [] => []
  end.

(** The value of a code unit as a digit of the given radix. *)
Definition digitOf (radix c : N) : option N :=
  let d := (if (48 <=? c) && (c <=? 57) then Some (c - 48)
            else if (97 <=? c) && (c <=? 122) then Some (c - 87)
            else if (65 <=? c) && (c <=? 90) then Some (c - 55)
            else None)%N in
  match d with
  | Some n => if (n <? radix)%N then Some n else None
  | None => None
  end.

(** The longest prefix of radix digits, read most significant digit first;
    [seen] records that at least one digit was read. *)
Fixpoint digits (radix : N) (s : jsstring) (seen : bool) (acc : Z) : option Z :=
  match s with
  | c :: rest =>
      match digitOf radix c with
      | Some d => digits radix rest true (Z.of_N radix * acc + Z.of_N d)
      | None => if seen then Some acc else None
      end
  | [] => if seen then Some acc else None
  end.

(** [parseInt(v)] with no radix argument; [None] is NaN.  The result is the
    mathematical integer, which the Number result equals up to 2^53. *)
Definition parseInt (v : value) : option Z :=
  let S0 := trimStart (ToString v) in
  let '(sign, S1) :=
    match S0 with
    | 45%N :: rest => ((-1)%Z, rest)
    | 43%N :: rest => (1%Z, rest)
    | _ => (1%Z, S0)
    end in
  let '(R, S2) :=
    match S1 with
    | 48%N :: 120%N :: rest => (16%N, rest)
    | 48%N :: 88%N :: rest => (16%N, rest)
    | _ => (10%N, S1)
    end in
  match digits R S2 false 0 with
  | Some n => Some (sign * n)%Z
  | None => None
  end.

(** The value of a decimal numeral, most significant digit first, on top of
    the digits already read. *)
Fixpoint uintValue (d : Decimal.uint) (acc : Z) : Z :=
  match d with
  | Decimal.Nil => acc
  | Decimal.D0 l => uintValue l (10 * acc + 0)
  | Decimal.D1 l => uintValue l (10 * acc + 1)
  | Decimal.D2 l => uintValue l (10 * acc + 2)
  | Decimal.D3 l => uintValue l (10 * acc + 3)
  | Decimal.D4 l => uintValue l (10 * acc + 4)
  | Decimal.D5 l => uintValue l (10 * acc + 5)
  | Decimal.D6 l => uintValue l (10 * acc + 6)
  | Decimal.D7 l => uintValue l (10 * acc + 7)
  | Decimal.D8 l => uintValue l (10 * acc + 8)
  | Decimal.D9 l => uintValue l (10 * acc + 9)
  end%Z.

(** *** decodeURI *)

Definition hexval (c : N) : option N := digitOf 16 c.

(** An escape [%XY] at the head of the string: its byte and what follows. *)
Definition escape (s : jsstring) : option (N * jsstring) :=
  match s with
  | p :: h :: l :: rest =>
      if (p =? 37)%N then
        match hexval h, hexval l with
        | Some a, Some b => Some (16 * a + b, rest)%N
        | _, _ => None
        end
      else None
  | _ => None
  end.

(** [n] further escapes, each a UTF-8 continuation byte [10xxxxxx]; the
    payload bits are accumulated on [acc]. *)
Fixpoint continuation (n : nat) (s : jsstring) (acc : N) : option N :=
  match n with
  | O => Some acc
  | S n' =>
      match escape s with
      | Some (b, rest) =>
          if ((128 <=? b) && (b <=? 191))%N
          then continuation n' rest (64 * acc + (b - 128))%N
          else None
      | None => None
      end
  end.

(** The characters [decodeURI] leaves escaped: [; / ? : @ & = + $ ,] and [#]. *)
Definition reservedURISet : list N :=
  [59; 47; 63; 58; 64; 38; 61; 43; 36; 44; 35]%N.

Definition UTF16EncodeCodePoint (cp : N) : jsstring :=
  if (cp <? 65536)%N then [cp]
  else [55296 + (cp - 65536) / 1024; 56320 + (cp - 65536) mod 1024]%N.

(** The escape sequence at the head of [s] (which starts with [%]): the code
    units it decodes to and the number of code units it spans, or [None]
    where Decode throws a URIError. *)
Definition decodeEscape (s : jsstring) : option (jsstring * nat) :=
  match escape s with
  | None => None
  | Some (B, rest) =>
      if (B <? 128)%N then
        if existsb (N.eqb B) reservedURISet
        then Some (firstn 3 s, 3)
        else Some ([B], 3)
      else if (B <? 192)%N then None
      else if (B <? 224)%N then
        match continuation 1 rest (B - 192) with
        | Some cp => if (128 <=? cp)%N then Some ([cp], 6) else None
        | None => None
        end
      else if (B <? 240)%N then
        match continuation 2 rest (B - 224) with
        | Some cp =>
            if ((2048 <=? cp) && negb ((55296 <=? cp) && (cp <=? 57343)))%N
            then Some ([cp], 9) else None
        | None => None
        end
      else if (B <? 248)%N then
        match continuation 3 rest (B - 240) with
        | Some cp =>
            if ((65536 <=? cp) && (cp <=? 1114111))%N
            then Some (UTF16EncodeCodePoint cp, 12) else None
        | None => None
        end
      else None
  end.

(** The Decode loop: [skip] counts the code units of an escape sequence
    that the index has still to step over. *)
Fixpoint Decode (skip : nat) (s : jsstring) : completion jsstring :=
  match s with
  | [] => Normal []
  | c :: rest =>
      match skip with
      | S k => Decode k rest
      | O =>
          if (c =? 37)%N then
            match decodeEscape s with
            | None => Throw URIError
            | Some (out, span) =>
                match Decode (span - 1) rest with
                | Normal R => Normal (out ++ R)
                | Throw e => Throw e
                end
            end
          else
            match Decode 0 rest with
            | Normal R => Normal (c :: R)
            | Throw e => Throw e
            end
      end
  end.

Definition decodeURI (s : jsstring) : completion jsstring := Decode 0 s.

(** *** big.js decimals

    A [Big] is an exact decimal [coef * 10^expo]. *)
Record Big := mkBig { coef : Z; expo : Z }.

Definition times (a b : Big) : Big :=
  mkBig (coef a * coef b) (expo a + expo b).

(** Trailing zeros of the coefficient are dropped, at most [fuel] of them. *)
Fixpoint normalize (fuel : nat) (b : Big) : Big :=
  match fuel with
  | O => b
  | S f =>
      if ((expo b <? 0) && (coef b mod 10 =? 0) && negb (coef b =? 0))%Z
      then normalize f (mkBig (coef b / 10) (expo b + 1))
      else b
  end.

(** [Big(n)] of an integral number and [Big(10 ** k)]: the constructor reads
    the number through its decimal notation, exactly. *)
Definition ofInt (z : Z) : Big := mkBig z 0.
Definition tenTo (k : Z) : Big := mkBig 1 k.

Definition decimalOf (z : Z) : jsstring :=
  lit (NilZero.string_of_int (Z.to_int z)).

Fixpoint padLeft (width : nat) (s : jsstring) : jsstring :=
  if Nat.ltb (List.length s) width
  then match width with
       | O => s
       | S w => 48%N :: padLeft w s
       end
  else s.

(** [toFixed()] with no argument: the plain decimal notation. *)
Definition toFixed (b : Big) : jsstring :=
  let b := normalize (Z.to_nat (- expo b)) b in
  if (0 <=? expo b)%Z then decimalOf (coef b * 10 ^ expo b)
  else
    let scale := (10 ^ (- expo b))%Z in
    let m := Z.abs (coef b) in
    (if (coef b <? 0)%Z then [45%N] else [])
      ++ decimalOf (m / scale) ++ [46%N]
      ++ padLeft (Z.to_nat (- expo b)) (decimalOf (m mod scale)).

End Js.

(** ** Data shared by the components *)

Module Model.
Import Js.

(** The wallet identity handed to the components as [currentUser]. *)
Record Identity := mkIdentity {
  accountId : jsstring;
  balance : jsstring
}.

(** A deed as [social_deeds] returns it; [is_creditor] is relative to the
    [creditor_id] of the request. *)
Record Deed := mkDeed {
  id : value;
  author : jsstring;
  title : jsstring;
  description : jsstring;
  proof : jsstring;
  creditors : value;
  is_creditor : bool
}.

Record SocialDeedsArgs := mkSocialDeedsArgs {
  creditor_id : jsstring;
  from_index : jsstring;
  limit : option Z
}.

(** The contract methods the two components call. *)
Inductive request :=
| get_deeds_count
| social_deeds (args : SocialDeedsArgs)
| is_registered (account_id : jsstring)
| credit (deed_id : value) (gas deposit : jsstring).

Definition response (r : request) : Type :=
  match r with
  | get_deeds_count => value
  | social_deeds _ => list Deed
  | is_registered _ => bool
  | credit _ _ _ => unit
  end.

(** The contract handle: what each call settles with. *)
Definition Contract := forall r : request, completion (response r).

(** The browser's location, its query component as the list of its
    name/value pairs. *)
Record Location := mkLocation {
  origin : jsstring;
  pathname : jsstring;
  search : list (jsstring * jsstring);
  hash : jsstring
}.

(** A session history entry: its URL and its state object. *)
Record Entry := mkEntry {
  url : Location;
  state : list (jsstring * jsstring)
}.

Record Window := mkWindow {
  current : Entry;
  back : list Entry;
  forward : list Entry
}.

Inductive logged :=
| LogText (s : jsstring)
| LogDeeds (ds : list Deed).

Inductive event :=
| Requested (r : request)
| Console (x : logged)
| WalletSignOut.

(** Everything the components read and write: the React state cells
    ([deeds] of Overview, [message] and [registered] of App), the window
    and a log of what went out. *)
Record Store := mkStore {
  deeds : list (list Deed);
  message : jsstring;
  registered : bool;
  window : Window;
  log : list event
}.

(** The synchronous effects. *)
Inductive action :=
| setDeeds (rows : list (list Deed))
| setMessage (m : jsstring)
| setRegistered (b : bool)
| console_log (x : logged)
| history_pushState (st : list (jsstring * jsstring)) (u : Location)
| location_replace (u : Location)
| wallet_signOut.

(** The URL string [origin + pathname] as the browser resolves it: neither
    component can hold a [?] or a [#], so the query and the fragment are
    empty. *)
Definition originPlusPathname (l : Location) : Location :=
  mkLocation (origin l) (pathname l) [] [].

Definition pushEntry (e : Entry) (w : Window) : Window :=
  mkWindow e (current w :: back w) [].

Definition replaceEntry (e : Entry) (w : Window) : Window :=
  mkWindow e (back w) (forward w).

Definition apply (a : action) (s : Store) : Store :=
  match a with
  | setDeeds rows => mkStore rows (message s) (registered s) (window s) (log s)
  | setMessage m => mkStore (deeds s) m (registered s) (window s) (log s)
  | setRegistered b => mkStore (deeds s) (message s) b (window s) (log s)
  | console_log x =>
      mkStore (deeds s) (message s) (registered s) (window s)
              (log s ++ [Console x])
  | history_pushState st u =>
      mkStore (deeds s) (message s) (registered s)
              (pushEntry (mkEntry u st) (window s)) (log s)
  | location_replace u =>
      mkStore (deeds s) (message s) (registered s)
              (replaceEntry (mkEntry u []) (window s)) (log s)
  | wallet_signOut =>
      mkStore (deeds s) (message s) (registered s) (window s)
              (log s ++ [WalletSignOut])
  end.

(** A piece of component code: synchronous effects, reads of the store and
    suspension on a contract call; [Spin] is a loop that never exits. *)
Inductive Prog (A : Type) : Type :=
| Ret (a : A)
| Raise (e : exn)
| Spin
| Do (a : action) (k : Prog A)
| Read (k : Store -> Prog A)
| Await (r : request) (k : completion (response r) -> Prog A).
Arguments Ret {A} a.
Arguments Raise {A} e.
Arguments Spin {A}.
Arguments Do {A} a k.
Arguments Read {A} k.
Arguments Await {A} r k.

(** The code up to its next suspension point. *)
Fixpoint sync {A} (p : Prog A) (s : Store) : Store * Prog A :=
  match p with
  | Do a k => sync k (apply a s)
  | Read k => sync (k s) s
  | _ => (s, p)
  end.

(** Code that is suspended on a contract call. *)
Definition isPending {A} (p : Prog A) : bool :=
  match p with
  | Await _ _ => true
  | _ => false
  end.

Inductive result (A : Type) :=
| Done (a : A)
| Failed (e : exn)
| Spinning.
Arguments Done {A} a.
Arguments Failed {A} e.
Arguments Spinning {A}.

Definition record (r : request) (s : Store) : Store :=
  mkStore (deeds s) (message s) (registered s) (window s)
          (log s ++ [Requested r]).

(** The code run to its end against a contract. *)
Fixpoint exec {A} (contract : Contract) (p : Prog A) (s : Store)
  : Store * result A :=
  match p with
  | Ret a => (s, Done a)
  | Raise e => (s, Failed e)
  | Spin => (s, Spinning)
  | Do a k => exec contract k (apply a s)
  | Read k => exec contract (k s) s
  | Await r k => exec contract (k (contract r)) (record r s)
  end.

(** The requests among the logged events, in the order they went out. *)
Fixpoint requests (l : list event) : list request :=
  match l with
  | Requested r :: l' => r :: requests l'
  | _ :: l' => requests l'
  | [] => []
  end.

(** The messages the code hands to [setMessage], in order. *)
Fixpoint messagesSet {A} (p : Prog A) (contract : Contract) (s : Store)
  : list jsstring :=
  match p with
  | Do (setMessage m) k => m :: messagesSet k contract (apply (setMessage m) s)
  | Do a k => messagesSet k contract (apply a s)
  | Read k => messagesSet (k s) contract s
  | Await r k => messagesSet (k (contract r)) contract (record r s)
  | _ => []
  end.

End Model.

(** ** Overview.jsx *)

Module Overview.
Import Js Model.

Section Chunks.
Context {A : Type}.

(** [arr.slice(b, e)] for indices [0 <= b] and [0 <= e]. *)
Definition slice (arr : list A) (b e : nat) : list A :=
  firstn (e - b) (skipn b arr).

(** The [while (i < n)] loop; it does not exit when [len] is [0]. *)
Fixpoint chunksLoop (fuel : nat) (arr : list A) (len : nat)
    (chunks : list (list A)) (i n : nat) : option (list (list A)) :=
  if Nat.ltb i n then
    match fuel with
    | O => None
    | S fuel' =>
        chunksLoop fuel' arr len (chunks ++ [slice arr i (i + len)]) (i + len) n
    end
  else Some chunks.

Definition splitArrayIntoChunksOfLen (arr : list A) (len : nat)
  : option (list (list A)) :=
  chunksLoop (List.length arr) arr len [] 0 (List.length arr).

End Chunks.

(** The effect of Overview: count, then one page, then the rows. *)
Definition fetchData (currentUser : Identity) : Prog unit :=
  Await get_deeds_count (fun count =>
  match count with
  | Throw e => Raise e
  | Normal count =>
      let args := mkSocialDeedsArgs (accountId currentUser) (lit "0")
                                    (parseInt count) in
      Await (social_deeds args) (fun result =>
      match result with
      | Throw e => Raise e
      | Normal result =>
          Do (console_log (LogDeeds result))
             match splitArrayIntoChunksOfLen result 2 with
             | Some chunks => Do (setDeeds chunks) (Ret tt)
             | None => Spin
             end
      end)
  end).

(** The Credit button of a card; [onClick] holds the deed handed to
    [onCredit], if the button has a handler. *)
Record Button := mkButton {
  tooltip : jsstring;
  className : jsstring;
  onClick : option Deed
}.

Definition creditButton (currentUser : Identity) (deed : Deed) : Button :=
  if is_creditor deed
  then mkButton (lit "You already credited the author.")
                (lit "margin_button disabled") None
  else if eqb (author deed) (accountId currentUser)
  then mkButton (lit "You cannot credit yourself.")
                (lit "margin_button disabled") None
  else mkButton (lit "Give a credit to the deed author.")
                (lit "margin_button") (Some deed).

(** The rendered rows: one card per deed, in the order of [deeds]. *)
Definition rows (currentUser : Identity) (deeds : list (list Deed))
  : list (list (Deed * Button)) :=
  map (map (fun deed => (deed, creditButton currentUser deed))) deeds.

End Overview.

(** ** App.js *)

Module App.
Import Js Model.

Definition BOATLOAD_OF_GAS : jsstring := toFixed (times (ofInt 3) (tenTo 13)).

Record Props := mkProps {
  currentUser : option Identity;
  lastTransaction : option jsstring;
  error : option jsstring
}.

(** The store when App mounts: [useState('')] and [useState(false)]. *)
Definition mount (w : Window) : Store := mkStore [] [] false w [].

Definition onCredit (deed : Deed) : Prog unit :=
  if is_creditor deed then
    Do (setMessage (lit "You already credited deed #" ++ ToString (id deed)))
       (Ret tt)
  else
    Await (credit (id deed) BOATLOAD_OF_GAS
                  (toFixed (times (mkBig 2 (-3)) (tenTo 24))))
          (fun r =>
             match r with
             | Normal _ =>
                 Do (console_log (LogText (lit "Successfully credited.")))
                    (Ret tt)
             | Throw _ => Ret tt
             end).

(** [currentUser.accountId] on a null [currentUser] is a TypeError, raised
    before the call goes out. *)
Definition fetchRegistered (currentUser : option Identity) : Prog unit :=
  match currentUser with
  | None => Raise TypeError
  | Some u =>
      Await (is_registered (accountId u)) (fun r =>
      match r with
      | Normal isRegistered => Do (setRegistered isRegistered) (Ret tt)
      | Throw e => Raise e
      end)
  end.

(** [window.history.pushState({}, "", origin + pathname)]. *)
Definition pushOriginPlusPathname : Prog unit :=
  Read (fun s =>
    Do (history_pushState [] (originPlusPathname (url (current (window s)))))
       (Ret tt)).

(** The effect on [lastTransaction] and [error]. *)
Definition transactionEffect (props : Props) : Prog unit :=
  if truthy (error props) then
    match decodeURI (text (error props)) with
    | Normal m => Do (setMessage m) pushOriginPlusPathname
    | Throw e => Raise e
    end
  else if truthy (lastTransaction props) then
    Do (setMessage (lit "Successfully executed transaction "
                      ++ text (lastTransaction props)))
       pushOriginPlusPathname
  else Ret tt.

Definition signOut : Prog unit :=
  Do wallet_signOut
     (Read (fun s =>
        Do (location_replace (originPlusPathname (url (current (window s)))))
           (Ret tt))).

Definition clearMessage : Prog unit := Do (setMessage []) (Ret tt).

Inductive route := index | publish | overview | donate | other.

Inductive element :=
| SignIn
| Register
| Dashboard (currentUser : Identity)
| Publish
| OverviewPage (currentUser : Identity)
| Donate
| NotFound.

(** The element each [Route] renders. *)
Definition routes (currentUser : option Identity) (registered : bool)
    (r : route) : element :=
  match r with
  | index =>
      match currentUser with
      | Some u => if registered then Dashboard u else Register
      | None => SignIn
      end
  | publish =>
      match currentUser with
      | Some u => if registered then Publish else Register
      | None => SignIn
      end
  | overview =>
      match currentUser with
      | Some u => if registered then OverviewPage u else Register
      | None => SignIn
      end
  | donate =>
      match currentUser with
      | Some u => if registered then Donate else Register
      | None => SignIn
      end
  | other => NotFound
  end.

End App.

(** ** The specification's vocabulary *)

Module Spec.
Import Js Model.

Inductive SessionState :=
| Unauthenticated
| AuthenticatedUnregistered (identity : Identity)
| AuthenticatedRegistered (identity : Identity).

(** The session state for an identity and the resolved registration flag. *)
Definition sessionState (identity : option Identity) (isRegistered : bool)
  : SessionState :=
  match identity with
  | None => Unauthenticated
  | Some i =>
      if isRegistered then AuthenticatedRegistered i
      else AuthenticatedUnregistered i
  end.

Inductive Branch := SignInBranch | RegisterBranch | ContentBranch.

Definition branchFor (s : SessionState) : Branch :=
  match s with
  | Unauthenticated => SignInBranch
  | AuthenticatedUnregistered _ => RegisterBranch
  | AuthenticatedRegistered _ => ContentBranch
  end.

(** The branch an element of App belongs to; the not-found page belongs to
    none. *)
Definition branchOf (e : App.element) : option Branch :=
  match e with
  | App.SignIn => Some SignInBranch
  | App.Register => Some RegisterBranch
  | App.Dashboard _ | App.Publish | App.OverviewPage _ | App.Donate =>
      Some ContentBranch
  | App.NotFound => None
  end.

(** The protected routes: all but the catch-all. *)
Definition protected (r : App.route) : bool :=
  match r with
  | App.other => false
  | _ => true
  end.

Inductive CreditDecision := AlreadyCredited | SelfAuthored | Eligible.

(** [decide] as the specification writes it. *)
Definition decide (isCreditor : bool) (author viewerAccountId : jsstring)
  : CreditDecision :=
  if isCreditor then AlreadyCredited
  else if eqb author viewerAccountId then SelfAuthored
  else Eligible.

(** The affordance of a decision: a disabled action with its explanation,
    or the enabled action that credits the deed. *)
Definition affordance (d : CreditDecision) (deed : Deed) : Overview.Button :=
  match d with
  | AlreadyCredited =>
      Overview.mkButton (lit "You already credited the author.")
                        (lit "margin_button disabled") None
  | SelfAuthored =>
      Overview.mkButton (lit "You cannot credit yourself.")
                        (lit "margin_button disabled") None
  | Eligible =>
      Overview.mkButton (lit "Give a credit to the deed author.")
                        (lit "margin_button") (Some deed)
  end.

Inductive TransactionSignal :=
| NoSignal
| Success (transactionId : jsstring)
| Failure (errorPayload : jsstring).

(** The signal the props of App carry: an error wins over a transaction
    id. *)
Definition signalOf (props : App.Props) : TransactionSignal :=
  if truthy (App.error props) then Failure (text (App.error props))
  else if truthy (App.lastTransaction props)
  then Success (text (App.lastTransaction props))
  else NoSignal.

(** Modelled from the spec: the entry point that hands [lastTransaction]
    and [error] to App is not among the sources.  The specification has the
    wallet append either an error payload or a transaction identifier to the
    retained navigation state on the redirect back, and the application read
    it from there: the two props are the values of the two redirect
    parameters of the current URL, absent when the URL has no such
    parameter. *)
Definition errorParam : jsstring := lit "errorMessage".

(** Modelled from the spec: the name of the redirect parameter that holds
    the transaction identifier, read by the absent entry point. *)
Definition transactionParam : jsstring := lit "transactionHashes".

(** The value of the first parameter of that name. *)
Fixpoint get (name : jsstring) (params : list (jsstring * jsstring))
  : option jsstring :=
  match params with
  | [] => None
  | (n, v) :: rest => if eqb n name then Some v else get name rest
  end.

(** Modelled from the spec: the props the absent entry point hands to App,
    read from the retained navigation state: the signed-in identity and the
    values of the two redirect parameters of the current URL. *)
Definition propsOf (currentUser : option Identity) (w : Window) : App.Props :=
  App.mkProps currentUser
              (get transactionParam (search (url (current w))))
              (get errorParam (search (url (current w)))).

End Spec.

(** ** Sample data *)

Module Sample.
Import Js Model.

Definition alice : Identity := mkIdentity (lit "alice.testnet") (lit "100").
Definition bob : Identity := mkIdentity (lit "bob.testnet") (lit "7").

Definition deedOf (n : Z) (who : Identity) (flag : bool) : Deed :=
  mkDeed (JNum n) (accountId who) (lit "Beach cleanup") (lit "Ten bags")
         (lit "https://example.org/beach.gif") (JNum 0) flag.

Definition home : Location :=
  mkLocation (lit "https://deeds.example") (lit "/overview") [] [].

Definition window0 : Window := mkWindow (mkEntry home []) [] [].

(** Back from the wallet with both an error and a transaction id, next to
    a parameter and a fragment of the application's own. *)
Definition redirected (errorMessage : jsstring) : Window :=
  mkWindow
    (mkEntry
       (mkLocation (lit "https://deeds.example") (lit "/overview")
                   [(lit "tab", lit "mine");
                    (Spec.transactionParam, lit "9xGq");
                    (Spec.errorParam, errorMessage)]
                   (lit "#deed-7"))
       [(lit "idx", lit "3")])
    [mkEntry home []] [].

(** A ledger of five deeds that hands out four (one went away between the
    count and the page), with every account registered. *)
Definition page : list Deed :=
  [deedOf 1 bob false; deedOf 2 alice false; deedOf 3 bob true;
   deedOf 4 alice true].

Definition ledger : Contract :=
  fun r =>
    match r return completion (response r) with
    | get_deeds_count => Normal (JStr (lit "5"))
    | social_deeds _ => Normal page
    | is_registered _ => Normal true
    | credit _ _ _ => Normal tt
    end.

(** The same ledger behind a failing connection. *)
Definition offline : Contract :=
  fun r => Throw (Rejected (lit "Failed to fetch")).

(** A ledger on which nobody is registered. *)
Definition unregistered : Contract :=
  fun r =>
    match r return completion (response r) with
    | is_registered _ => Normal false
    | r' => ledger r'
    end.

End Sample.

(** ** big.js numbers from their notation *)

Module BigJs.
Import Js.

(** The run of decimal digits at the head of the string: its value on top
    of [acc], its length on top of [n], and what follows it. *)
Fixpoint digitRun (s : jsstring) (acc : Z) (n : nat) : Z * nat * jsstring :=
  match s with
  | c :: rest =>
      match digitOf 10 c with
      | Some d => digitRun rest (10 * acc + Z.of_N d) (S n)
      | None => (acc, n, s)
      end
  | [] => (acc, n, [])
  end.

(** The exponent part [e], [e+] or [e-] and at least one digit, up to the
    end of the string; no exponent part is exponent [0]. *)
Definition exponentPart (s : jsstring) : option Z :=
  match s with
  | [] => Some 0%Z
  | c :: rest =>
      if ((c =? 101) || (c =? 69))%N then
        let '(sg, r) :=
          match rest with
          | 43%N :: r => (1%Z, r)
          | 45%N :: r => ((-1)%Z, r)
          | _ => (1%Z, rest)
          end in
        match digitRun r 0 0 with
        | (v, S _, []) => Some (sg * v)%Z
        | _ => None
        end
      else None
  end.

(** The digits, the optional fraction and the optional exponent of a
    number without its sign. *)
Definition parseUnsigned (sign : Z) (s : jsstring) : option Big :=
  let '(ip, ni, r1) := digitRun s 0 0 in
  let '(m, nf, r2, ok) :=
    match r1 with
    | 46%N :: r =>
        let '(fp, nf, r2) := digitRun r ip 0 in
        (fp, nf, r2, Nat.ltb 0 ni || Nat.ltb 0 nf)
    | _ => (ip, O, r1, Nat.ltb 0 ni)
    end in
  if ok then
    match exponentPart r2 with
    | Some e => Some (mkBig (sign * m) (e - Z.of_nat nf))
    | None => None
    end
  else None.

(** [Big(s)] for a string.  big.js accepts an optional minus sign, then
    digits with an optional point and further digits, or a point and at
    least one digit, then an optional exponent part; [None] is its error
    "Invalid number". *)
Definition parse (s : jsstring) : option Big :=
  match s with
  | 45%N :: r => parseUnsigned (-1) r
  | _ => parseUnsigned 1 s
  end.

End BigJs.

(** ** The form handlers of App.js *)

Module Handlers.
Import Js Model.

(** What [storage_balance_bounds] resolves with: amounts of yoctoNEAR,
    which the ledger hands out as strings, as it takes [from_index]: they
    are beyond the integers a number holds exactly. *)
Record Bounds := mkBounds {
  min : jsstring;
  max : option jsstring
}.

(** The state-changing contract methods and the bounds query. *)
Inductive call :=
| add_deed (author title description proof : jsstring) (gas deposit : jsstring)
| donate (gas deposit : jsstring)
| storage_balance_bounds
| storage_deposit (account_id : jsstring) (registration_only : bool)
                  (gas deposit : jsstring).

Definition reply (c : call) : Type :=
  match c with
  | storage_balance_bounds => Bounds
  | _ => unit
  end.

Definition Ledger := forall c : call, completion (reply c).

(** The fields of the publish form, by the ids Publish.jsx gives them. *)
Record PublishForm := mkPublishForm {
  title_prompt : jsstring;
  description_prompt : jsstring;
  proof_prompt : jsstring
}.

(** What a handler leaves behind: the submit event, the form's fieldset,
    the calls that went out and the console. *)
Record Page := mkPage {
  defaultPrevented : bool;
  fieldsetDisabled : bool;
  sent : list call;
  console : list jsstring
}.

Inductive act :=
| preventDefault
| disableFieldset
| console_log (s : jsstring).

Definition perform (a : act) (p : Page) : Page :=
  match a with
  | preventDefault =>
      mkPage true (fieldsetDisabled p) (sent p) (console p)
  | disableFieldset =>
      mkPage (defaultPrevented p) true (sent p) (console p)
  | console_log s =>
      mkPage (defaultPrevented p) (fieldsetDisabled p) (sent p)
             (console p ++ [s])
  end.

(** How a handler can end other than by returning. *)
Inductive failure :=
| Js (e : exn)
| InvalidNumber.

(** The code of a handler. *)
Inductive Task : Type :=
| Finish
| Fail (e : failure)
| Step (a : act) (k : Task)
| Call (c : call) (k : completion (reply c) -> Task).

Fixpoint run (contract : Ledger) (t : Task) (p : Page)
  : Page * option failure :=
  match t with
  | Finish => (p, None)
  | Fail e => (p, Some e)
  | Step a k => run contract k (perform a p)
  | Call c k =>
      run contract (k (contract c))
          (mkPage (defaultPrevented p) (fieldsetDisabled p) (sent p ++ [c])
                  (console p))
  end.

(** [.then((_) => console.log(text))] on a call that is not awaited: a
    rejection stays with the promise. *)
Definition thenLog {A} (text : string) (r : completion A) : Task :=
  match r with
  | Normal _ => Step (console_log (lit text)) Finish
  | Throw _ => Finish
  end.

Definition onPublishDeed (currentUser : option Identity) (form : PublishForm)
  : Task :=
  Step preventDefault
    (Step disableFieldset
       match currentUser with
       | None => Fail (Js TypeError)
       | Some u =>
           match BigJs.parse (lit "0.01") with
           | None => Fail InvalidNumber
           | Some d =>
               Call (add_deed (accountId u) (title_prompt form)
                              (description_prompt form) (proof_prompt form)
                              App.BOATLOAD_OF_GAS
                              (toFixed (times d (tenTo 24))))
                    (thenLog "Successfully published.")
           end
       end).

Definition onRegister (currentUser : option Identity) : Task :=
  Call storage_balance_bounds (fun r =>
  match r with
  | Throw e => Fail (Js e)
  | Normal balance_bounds =>
      match currentUser with
      | None => Fail (Js TypeError)
      | Some u =>
          match BigJs.parse (min balance_bounds) with
          | None => Fail InvalidNumber
          | Some d =>
              Call (storage_deposit (accountId u) true App.BOATLOAD_OF_GAS
                                    (toFixed d))
                   (thenLog "Successfully registered.")
          end
      end
  end).

(** [donation] is the value of the number input of Donate.jsx. *)
Definition onDonate (donation : jsstring) : Task :=
  Step preventDefault
    (Step disableFieldset
       match BigJs.parse donation with
       | None => Fail InvalidNumber
       | Some d =>
           Call (donate App.BOATLOAD_OF_GAS (toFixed (times d (tenTo 24))))
                (thenLog "Successfully donated.")
       end).

End Handlers.

(** ** Sample forms and ledgers for the handlers *)

Module Fixtures.
Import Js Model.

Definition cleanup : Handlers.PublishForm :=
  Handlers.mkPublishForm (lit "Beach cleanup") (lit "Ten bags")
                         (lit "https://example.org/beach.gif").

Definition blank : Handlers.Page := Handlers.mkPage false false [] [].

(** A ledger that accepts every call and asks 0.00125 NEAR for storage. *)
Definition accepting : Handlers.Ledger :=
  fun c =>
    match c return completion (Handlers.reply c) with
    | Handlers.storage_balance_bounds =>
        Normal (Handlers.mkBounds (lit "1250000000000000000000") None)
    | Handlers.add_deed _ _ _ _ _ _ => Normal tt
    | Handlers.donate _ _ => Normal tt
    | Handlers.storage_deposit _ _ _ _ => Normal tt
    end.

(** A ledger behind a failing connection. *)
Definition failing : Handlers.Ledger :=
  fun c => Throw (Rejected (lit "Failed to fetch")).

End Fixtures.

Import Js Model.

(** ** Session gating *)

Lemma eqb_eq (a b : jsstring) : eqb a b = true <-> a = b.
Proof.
  revert b; induction a as [|x a IH]; intros [|y b]; simpl;
    try (split; [discriminate | discriminate]); try tauto.
  rewrite andb_true_iff, N.eqb_eq, IH.
  split; [intros [-> ->]; reflexivity | intros H; inversion H; auto].
Qed.

Lemma eqb_refl (a : jsstring) : eqb a a = true.
Proof. apply eqb_eq; reflexivity. Qed.

Lemma routes_dispatch (currentUser : option Identity) (registered : bool)
    (r : App.route) :
  Spec.protected r = true ->
  Spec.branchOf (App.routes currentUser registered r)
  = Some (Spec.branchFor (Spec.sessionState currentUser registered)).
Proof.
  destruct r, currentUser as [u|], registered; simpl; intros H;
    (reflexivity || discriminate H).
Qed.

Lemma fetchRegistered_resolved (contract : Contract) (u : Identity)
    (s : Store) (b : bool) :
  contract (is_registered (accountId u)) = Normal b ->
  exec contract (App.fetchRegistered (Some u)) s
  = (apply (setRegistered b) (record (is_registered (accountId u)) s), Done tt).
Proof. intros H; simpl; rewrite H; reflexivity. Qed.

(** C1.  On every protected route the rendered branch is the three-way
    dispatch on the session: without an identity the sign-in view, whatever
    the registration flag; with an identity whose registration check resolved
    [b], the content view when [b] is true and the register view when it is
    false; and in general the branch of the session state that the identity
    and the flag determine, the same on all four routes. *)
Theorem protected_routes_dispatch_on_session :
  (forall r registered,
      Spec.protected r = true ->
      Spec.branchOf (App.routes None registered r) = Some Spec.SignInBranch)
  /\ (forall (contract : Contract) u s b r,
      Spec.protected r = true ->
      contract (is_registered (accountId u)) = Normal b ->
      let s' := fst (exec contract (App.fetchRegistered (Some u)) s) in
      registered s' = b
      /\ Spec.branchOf (App.routes (Some u) (registered s') r)
         = Some (if b then Spec.ContentBranch else Spec.RegisterBranch))
  /\ (forall r currentUser registered,
      Spec.protected r = true ->
      Spec.branchOf (App.routes currentUser registered r)
      = Some (Spec.branchFor (Spec.sessionState currentUser registered)))
  /\ (forall r r' currentUser registered,
      Spec.protected r = true -> Spec.protected r' = true ->
      Spec.branchOf (App.routes currentUser registered r)
      = Spec.branchOf (App.routes currentUser registered r')).
Proof.
  repeat split.
  - intros r registered H. rewrite routes_dispatch by exact H. reflexivity.
  - rewrite (fetchRegistered_resolved contract u s b H0). reflexivity.
  - rewrite (fetchRegistered_resolved contract u s b H0).
    rewrite routes_dispatch by exact H. simpl. destruct b; reflexivity.
  - intros; apply routes_dispatch; assumption.
  - intros r r' cu reg H H'. rewrite !routes_dispatch by assumption.
    reflexivity.
Qed.

Lemma protected_routes_sample :
  Spec.branchOf (App.routes None true App.publish) = Some Spec.SignInBranch
  /\ Spec.branchOf
       (App.routes (Some Sample.alice)
          (registered
             (fst (exec Sample.ledger (App.fetchRegistered (Some Sample.alice))
                        (App.mount Sample.window0))))
          App.overview)
     = Some Spec.ContentBranch
  /\ Spec.branchOf
       (App.routes (Some Sample.alice)
          (registered
             (fst (exec Sample.unregistered
                        (App.fetchRegistered (Some Sample.alice))
                        (App.mount Sample.window0))))
          App.overview)
     = Some Spec.RegisterBranch
  /\ Spec.branchOf (App.routes (Some Sample.bob) true App.donate)
     = Some (Spec.branchFor (Spec.sessionState (Some Sample.bob) true))
  /\ Spec.branchOf (App.routes (Some Sample.bob) true App.index)
     = Spec.branchOf (App.routes (Some Sample.bob) true App.donate).
Proof.
  destruct protected_routes_dispatch_on_session as (Hnull & Hcheck & Hall & Hsame).
  split; [exact (Hnull App.publish true eq_refl)|].
  split; [exact (proj2 (Hcheck Sample.ledger Sample.alice
                          (App.mount Sample.window0) true App.overview
                          eq_refl eq_refl))|].
  split; [exact (proj2 (Hcheck Sample.unregistered Sample.alice
                          (App.mount Sample.window0) false App.overview
                          eq_refl eq_refl))|].
  split; [exact (Hall App.donate (Some Sample.bob) true eq_refl)|].
  exact (Hsame App.index App.donate (Some Sample.bob) true eq_refl eq_refl).
Defined.

(** ** Credit eligibility *)

Lemma creditButton_decide (currentUser : Identity) (deed : Deed) :
  Overview.creditButton currentUser deed
  = Spec.affordance
      (Spec.decide (is_creditor deed) (author deed) (accountId currentUser))
      deed.
Proof.
  unfold Overview.creditButton, Spec.decide.
  destruct (is_creditor deed); [reflexivity|].
  destruct (eqb (author deed) (accountId currentUser)); reflexivity.
Qed.

Lemma affordance_injective (d d' : Spec.CreditDecision) (deed deed' : Deed) :
  Spec.affordance d deed = Spec.affordance d' deed' -> d = d'.
Proof. destruct d, d'; simpl; intros H; (reflexivity || discriminate H). Qed.

(** C2.  The Credit button of a card is the affordance of one decision, the
    one [decide] computes from the deed's [is_creditor] flag, its author and
    the viewer's account id, and each decision has an affordance of its own;
    a deed flagged [is_creditor] is AlreadyCredited also when the viewer is
    its author, an unflagged deed of the viewer is SelfAuthored, and any
    other deed is Eligible. *)
Theorem credit_decision_precedence :
  (forall currentUser deed,
      Overview.creditButton currentUser deed
      = Spec.affordance
          (Spec.decide (is_creditor deed) (author deed) (accountId currentUser))
          deed)
  /\ (forall d d' deed deed',
      Spec.affordance d deed = Spec.affordance d' deed' -> d = d')
  /\ (forall author viewer,
      Spec.decide true author viewer = Spec.AlreadyCredited)
  /\ (forall viewer, Spec.decide true viewer viewer = Spec.AlreadyCredited)
  /\ (forall viewer, Spec.decide false viewer viewer = Spec.SelfAuthored)
  /\ (forall author viewer,
      author <> viewer -> Spec.decide false author viewer = Spec.Eligible)
  /\ (forall currentUser deed,
      is_creditor deed = true ->
      Overview.creditButton currentUser deed
      = Spec.affordance Spec.AlreadyCredited deed)
  /\ (forall currentUser deed,
      is_creditor deed = false -> author deed = accountId currentUser ->
      Overview.creditButton currentUser deed
      = Spec.affordance Spec.SelfAuthored deed)
  /\ (forall currentUser deed,
      is_creditor deed = false -> author deed <> accountId currentUser ->
      Overview.creditButton currentUser deed
      = Spec.affordance Spec.Eligible deed).
Proof.
  assert (Hne : forall a v, a <> v -> eqb a v = false).
  { intros a v H. destruct (eqb a v) eqn:E; [|reflexivity].
    apply eqb_eq in E; contradiction. }
  repeat split.
  - apply creditButton_decide.
  - apply affordance_injective.
  - intros viewer. unfold Spec.decide. rewrite eqb_refl. reflexivity.
  - intros a v H. unfold Spec.decide. rewrite (Hne a v H). reflexivity.
  - intros u deed H. rewrite creditButton_decide, H. reflexivity.
  - intros u deed H E. rewrite creditButton_decide, H, E.
    unfold Spec.decide. rewrite eqb_refl. reflexivity.
  - intros u deed H E. rewrite creditButton_decide, H.
    unfold Spec.decide. rewrite (Hne _ _ E). reflexivity.
Qed.

Lemma credit_decision_sample :
  Overview.creditButton Sample.alice (Sample.deedOf 4 Sample.alice true)
  = Spec.affordance Spec.AlreadyCredited (Sample.deedOf 4 Sample.alice true)
  /\ Overview.creditButton Sample.alice (Sample.deedOf 2 Sample.alice false)
     = Spec.affordance Spec.SelfAuthored (Sample.deedOf 2 Sample.alice false)
  /\ Overview.creditButton Sample.alice (Sample.deedOf 1 Sample.bob false)
     = Spec.affordance Spec.Eligible (Sample.deedOf 1 Sample.bob false)
  /\ Spec.decide false (accountId Sample.bob) (accountId Sample.alice)
     = Spec.Eligible.
Proof.
  destruct credit_decision_precedence
    as (_ & Hinj & _ & _ & _ & Hother & Hflag & Hself & Hfree).
  assert (Hne : accountId Sample.bob <> accountId Sample.alice)
    by discriminate.
  pose proof (Hinj Spec.Eligible Spec.Eligible
                (Sample.deedOf 1 Sample.bob false)
                (Sample.deedOf 1 Sample.bob false) eq_refl) as _.
  split; [exact (Hflag Sample.alice (Sample.deedOf 4 Sample.alice true)
                   eq_refl)|].
  split; [exact (Hself Sample.alice (Sample.deedOf 2 Sample.alice false)
                   eq_refl eq_refl)|].
  split; [exact (Hfree Sample.alice (Sample.deedOf 1 Sample.bob false)
                   eq_refl Hne)|].
  exact (Hother _ _ Hne).
Defined.

(** ** The row partition *)

Section Rows.
Context {A : Type}.
Variable arr : list A.

Lemma slice_two_length (i : nat) :
  List.length (Overview.slice arr i (i + 2)) = Nat.min 2 (List.length arr - i).
Proof.
  unfold Overview.slice.
  replace (i + 2 - i) with 2 by lia.
  rewrite length_firstn, length_skipn. reflexivity.
Qed.

Lemma slice_two_skipn (i : nat) :
  Overview.slice arr i (i + 2) ++ skipn (i + 2) arr = skipn i arr.
Proof.
  unfold Overview.slice.
  replace (i + 2 - i) with 2 by lia.
  replace (i + 2) with (2 + i) by lia.
  rewrite <- skipn_skipn. apply firstn_skipn.
Qed.

(** The loop from index [i] on, with enough fuel: what it appends to
    [chunks]. *)
Lemma chunksLoop_two (fuel : nat) : forall chunks i,
  List.length arr - i <= 2 * fuel ->
  exists rest,
    Overview.chunksLoop fuel arr 2 chunks i (List.length arr)
    = Some (chunks ++ rest)
    /\ List.concat rest = skipn i arr
    /\ 2 * List.length rest = List.length arr - i + (List.length arr - i) mod 2
    /\ (forall k, k + 1 < List.length rest -> List.length (nth k rest []) = 2)
    /\ (rest <> [] ->
        List.length (last rest []) = 2 - (List.length arr - i) mod 2).
Proof.
  induction fuel as [|fuel IH]; intros chunks i Hfuel.
  - exists []. cbn [Overview.chunksLoop].
    destruct (Nat.ltb_spec i (List.length arr)); [lia|].
    rewrite app_nil_r, skipn_all2 by lia.
    replace (List.length arr - i) with 0 by lia.
    repeat split; simpl; try lia; intros; congruence.
  - cbn [Overview.chunksLoop].
    destruct (Nat.ltb_spec i (List.length arr)) as [Hlt|Hge].
    + destruct (IH (chunks ++ [Overview.slice arr i (i + 2)]) (i + 2))
        as (rest & Hrun & Hcat & Hlen & Hfull & Hlast); [lia|].
      exists (Overview.slice arr i (i + 2) :: rest).
      rewrite Hrun, <- app_assoc.
      cbn [app List.concat List.length nth].
      split; [reflexivity|]. split; [|split; [|split]].
      * rewrite Hcat. apply slice_two_skipn.
      * assert (E : (List.length arr - i) mod 2
                    = (List.length arr - (i + 2)) mod 2
                      + (if Nat.leb (List.length arr) (i + 1) then 1 else 0)).
        { destruct (Nat.leb_spec (List.length arr) (i + 1)).
          - replace (List.length arr - i) with 1 by lia.
            replace (List.length arr - (i + 2)) with 0 by lia. reflexivity.
          - replace (List.length arr - i)
              with (List.length arr - (i + 2) + 1 * 2) by lia.
            rewrite Nat.Div0.mod_add. lia. }
        destruct (Nat.leb_spec (List.length arr) (i + 1)); lia.
      * intros [|k] Hk.
        -- rewrite slice_two_length.
           assert (List.length arr - (i + 2) <> 0).
           { intros Z. rewrite Z in Hlen. cbn in Hlen. lia. }
           lia.
        -- apply Hfull. lia.
      * intros _. destruct rest as [|c rest'].
        -- cbn [last]. rewrite slice_two_length.
           cbn [List.length] in Hlen.
           assert (List.length arr - (i + 2) = 0).
           { pose proof (Nat.mod_upper_bound (List.length arr - (i + 2)) 2).
             lia. }
           assert (Hc : List.length arr - i = 1 \/ List.length arr - i = 2)
             by lia.
           destruct Hc as [-> | ->]; reflexivity.
        -- change (last (Overview.slice arr i (i + 2) :: c :: rest') [])
             with (last (c :: rest') []).
           rewrite Hlast by discriminate.
           assert (Hpos : List.length arr - (i + 2) <> 0).
           { intros Z. rewrite Z in Hlen. cbn in Hlen. lia. }
           replace (List.length arr - i)
             with (List.length arr - (i + 2) + 1 * 2) by lia.
           rewrite Nat.Div0.mod_add. reflexivity.
    + exists []. rewrite app_nil_r, skipn_all2 by lia.
      replace (List.length arr - i) with 0 by lia.
      repeat split; simpl; try lia; intros; congruence.
Qed.

End Rows.

(** C3.  Splitting [N] deeds into rows of width 2 returns, and returns
    [ceil(N/2)] rows whose concatenation is the original sequence (same
    order, same length); every row but the last has length 2, the last row
    has length 1 exactly when [N] is odd and length 2 exactly when [N] is
    even, and no deeds give no rows. *)
Theorem split_rows_of_two {A : Type} (arr : list A) :
  exists rows,
    Overview.splitArrayIntoChunksOfLen arr 2 = Some rows
    /\ List.length rows = (List.length arr + 1) / 2
    /\ List.concat rows = arr
    /\ List.length (List.concat rows) = List.length arr
    /\ (forall k, k + 1 < List.length rows ->
                  List.length (nth k rows []) = 2)
    /\ (rows <> [] ->
        (List.length (last rows []) = 1 <-> Nat.Odd (List.length arr))
        /\ (List.length (last rows []) = 2 <-> Nat.Even (List.length arr)))
    /\ (List.length arr = 0 -> rows = []).
Proof.
  destruct (chunksLoop_two arr (List.length arr) [] 0)
    as (rows & Hrun & Hcat & Hlen & Hfull & Hlast); [lia|].
  rewrite Nat.sub_0_r in Hlen, Hlast. cbn [app skipn] in Hrun, Hcat.
  pose proof (Nat.mod_upper_bound (List.length arr) 2) as Hm.
  pose proof (Nat.div_mod_eq (List.length arr) 2) as Hd.
  exists rows. split; [exact Hrun|]. split; [|split; [|split; [|split; [|split]]]].
  - apply (Nat.div_unique _ 2 _ (1 - List.length arr mod 2)); lia.
  - exact Hcat.
  - rewrite Hcat; reflexivity.
  - exact Hfull.
  - intros Hne. rewrite (Hlast Hne). split; split.
    + intros H1. exists (List.length arr / 2). lia.
    + intros [q Hq]. rewrite Hq.
      replace (2 * q + 1) with (1 + q * 2) by lia.
      rewrite Nat.Div0.mod_add. reflexivity.
    + intros H2. exists (List.length arr / 2). lia.
    + intros [q Hq]. rewrite Hq.
      replace (2 * q) with (0 + q * 2) by lia.
      rewrite Nat.Div0.mod_add. reflexivity.
  - intros H0. rewrite H0 in Hlen. cbn in Hlen.
    destruct rows; [reflexivity | cbn in Hlen; lia].
Qed.

Lemma split_rows_of_two_sample :
  exists rows,
    Overview.splitArrayIntoChunksOfLen [1; 2; 3] 2 = Some rows
    /\ List.length rows = 2
    /\ List.length (nth 0 rows []) = 2
    /\ List.length (last rows []) = 1.
Proof.
  destruct (split_rows_of_two [1; 2; 3])
    as (rows & Hrun & Hlen & _ & _ & Hfull & Hlast & _).
  change ((List.length [1; 2; 3] + 1) / 2) with 2 in Hlen.
  exists rows. split; [exact Hrun|]. split; [exact Hlen|].
  split; [apply Hfull; rewrite Hlen; lia|].
  assert (Hne : rows <> []).
  { intros E. rewrite E in Hlen. discriminate Hlen. }
  apply (proj1 (Hlast Hne)). exists 1. reflexivity.
Defined.

(** ** The feed fetch *)

Lemma lit_cons (c : ascii) (s : string) :
  lit (String c s) = N_of_ascii c :: lit s.
Proof. reflexivity. Qed.

Lemma digits_uint (d : Decimal.uint) : forall acc,
  digits 10 (lit (NilEmpty.string_of_uint d)) true acc = Some (uintValue d acc).
Proof.
  induction d; intros acc; try reflexivity;
    cbn [NilEmpty.string_of_uint uintValue];
    unfold lit in *; cbn [list_ascii_of_string map digits];
    match goal with
    | |- context [digitOf 10 ?c] =>
        change (digitOf 10 c) with (Some (c - 48)%N)
    end; cbv beta iota; rewrite IHd; reflexivity.
Qed.

Lemma uintValue_acc (d : Decimal.uint) : forall acc : positive,
  Zpos (Pos.of_uint_acc d acc) = uintValue d (Zpos acc).
Proof.
  induction d; intros acc; cbn [Pos.of_uint_acc uintValue];
    try reflexivity; rewrite IHd; f_equal; lia.
Qed.

Lemma uintValue_of_uint (d : Decimal.uint) :
  Z.of_N (Pos.of_uint d) = uintValue d 0.
Proof.
  induction d; cbn [Pos.of_uint uintValue]; try reflexivity;
    try exact IHd; cbn [Z.of_N]; rewrite uintValue_acc; reflexivity.
Qed.

(** A string that starts with one of the digits 1 to 9 is read in radix 10
    from its first code unit on. *)
Lemma parseInt_digit_led (c : N) (rest : jsstring) :
  (49 <=? c)%N && (c <=? 57)%N = true ->
  parseInt (JStr (c :: rest))
  = match digits 10 rest true (Z.of_N (c - 48)) with
    | Some n => Some (1 * n)%Z
    | None => None
    end.
Proof.
  intros H. apply andb_true_iff in H. destruct H as [H1 H2].
  apply N.leb_le in H1, H2.
  assert (Hc : In c [49;50;51;52;53;54;55;56;57]%N).
  { assert (E : c = N.of_nat (N.to_nat c)) by lia. rewrite E.
    remember (N.to_nat c) as n.
    assert (49 <= n <= 57)%nat by lia.
    do 49 (destruct n as [|n]; [lia|]).
    do 9 (destruct n as [|n]; [cbn; tauto|]). lia. }
  cbn in Hc.
  repeat (destruct Hc as [<- | Hc]; [reflexivity|]). contradiction.
Qed.

Lemma parseInt_uint (d : Decimal.uint) :
  d <> Decimal.Nil ->
  parseInt (JStr (lit (NilEmpty.string_of_uint d))) = Some (uintValue d 0).
Proof.
  intros Hd. destruct d as [|l|l|l|l|l|l|l|l|l|l]; try congruence;
    cbn [NilEmpty.string_of_uint uintValue]; rewrite lit_cons.
  2-10: rewrite parseInt_digit_led by reflexivity;
        rewrite digits_uint, Z.mul_1_l; reflexivity.
  destruct l; cbn [NilEmpty.string_of_uint uintValue];
    [reflexivity | rewrite lit_cons ..];
    unfold parseInt, ToString; cbn -[lit Z.mul Z.add];
    rewrite digits_uint, Z.mul_1_l; reflexivity.
Qed.

(** [parseInt] reads the decimal notation of a count back. *)
Lemma parseInt_decimalOf (n : Z) :
  (0 <= n)%Z -> parseInt (JStr (decimalOf n)) = Some n.
Proof.
  intros Hn. destruct n as [|p|p]; [reflexivity| |lia].
  unfold decimalOf. cbn [Z.to_int NilZero.string_of_int].
  pose proof (Unsigned.to_uint_nonnil p) as Hnil.
  pose proof (Unsigned.of_to p) as Hof.
  unfold NilZero.string_of_uint.
  destruct (Pos.to_uint p) eqn:E; try congruence;
    rewrite parseInt_uint by discriminate;
    rewrite <- uintValue_of_uint, Hof; reflexivity.
Qed.

Lemma requests_app (l l' : list event) :
  requests (l ++ l') = requests l ++ requests l'.
Proof.
  induction l as [|[r|x|] l IH]; simpl; rewrite ?IH; reflexivity.
Qed.

Lemma rows_deeds (u : Identity) (chunks : list (list Deed)) :
  map fst (List.concat (Overview.rows u chunks)) = List.concat chunks.
Proof.
  unfold Overview.rows. induction chunks as [|c chunks IH]; [reflexivity|].
  cbn [map List.concat]. rewrite map_app, IH, map_map. cbn [fst].
  rewrite map_id. reflexivity.
Qed.

(** C4, as the claim states it, fails: the count is not requested for the
    filter [creditor_id = viewer].  For two different viewers the first
    request is the same [get_deeds_count], which has no argument to hold a
    viewer, and both get the same count as their limit; the viewer's account
    id goes out only with the page request. *)
Lemma count_request_carries_no_viewer :
  let asAlice :=
    requests (log (fst (exec Sample.ledger (Overview.fetchData Sample.alice)
                             (App.mount Sample.window0)))) in
  let asBob :=
    requests (log (fst (exec Sample.ledger (Overview.fetchData Sample.bob)
                             (App.mount Sample.window0)))) in
  accountId Sample.alice <> accountId Sample.bob
  /\ asAlice
     = [get_deeds_count;
        social_deeds (mkSocialDeedsArgs (accountId Sample.alice) (lit "0")
                                        (Some 5%Z))]
  /\ asBob
     = [get_deeds_count;
        social_deeds (mkSocialDeedsArgs (accountId Sample.bob) (lit "0")
                                        (Some 5%Z))]
  /\ hd_error asAlice = Some get_deeds_count
  /\ hd_error asBob = Some get_deeds_count.
Proof. split; [discriminate|]. repeat split. Qed.

(** The shape of the rows of width 2, whenever the partition returns. *)
Lemma rows_of_two_shape {A : Type} (arr : list A) (rows : list (list A)) :
  Overview.splitArrayIntoChunksOfLen arr 2 = Some rows ->
  List.concat rows = arr
  /\ List.length rows = (List.length arr + 1) / 2
  /\ (forall k, k + 1 < List.length rows ->
                List.length (nth k rows []) = 2)
  /\ (rows <> [] ->
      (List.length (last rows []) = 1 <-> Nat.Odd (List.length arr))
      /\ (List.length (last rows []) = 2 <-> Nat.Even (List.length arr))).
Proof.
  intros Hsplit.
  destruct (chunksLoop_two arr (List.length arr) [] 0)
    as (rows' & Hrun & Hcat & Hlen & Hfull & Hlast); [lia|].
  cbn [app skipn] in Hrun, Hcat.
  unfold Overview.splitArrayIntoChunksOfLen in Hsplit.
  rewrite Hrun in Hsplit. injection Hsplit as ->.
  rewrite Nat.sub_0_r in Hlen, Hlast.
  pose proof (Nat.mod_upper_bound (List.length arr) 2) as Hm.
  pose proof (Nat.div_mod_eq (List.length arr) 2) as Hd.
  split; [exact Hcat|]. split; [|split; [exact Hfull|]].
  - apply (Nat.div_unique _ 2 _ (1 - List.length arr mod 2)); lia.
  - intros Hne. rewrite (Hlast Hne). split; split.
    + intros H1. exists (List.length arr / 2). lia.
    + intros [q Hq]. rewrite Hq.
      replace (2 * q + 1) with (1 + q * 2) by lia.
      rewrite Nat.Div0.mod_add. reflexivity.
    + intros H2. exists (List.length arr / 2). lia.
    + intros [q Hq]. rewrite Hq.
      replace (2 * q) with (0 + q * 2) by lia.
      rewrite Nat.Div0.mod_add. reflexivity.
Qed.

(** C4, amended.  For a count within the integers a number holds exactly
    (up to 2^53 in magnitude), when the count and the page both arrive the
    feed fetch sends exactly two requests: first [get_deeds_count], which
    takes no argument and so carries no viewer filter, then one
    [social_deeds] with the viewer's account id as [creditor_id],
    [from_index] "0" and [parseInt] of the count as [limit], which is the
    count itself when the ledger hands it out as a number or in decimal
    notation.  Whatever the length of the returned page, shorter than the
    limit included, the fetch ends without an error with the page partitioned
    into rows of width 2: [ceil(N/2)] rows, all but the last of length 2, the
    last of length 1 exactly when the page length is odd; the rows and the
    cards rendered from them list the deeds of the page in the order the
    ledger returned them. *)
Theorem fetchData_count_then_page (contract : Contract) (u : Identity)
    (s : Store) (count : value) (result : list Deed) :
  contract get_deeds_count = Normal count ->
  (forall z, count = JNum z -> (Z.abs z <= 2 ^ 53)%Z) ->
  (forall n, parseInt count = Some n -> (Z.abs n <= 2 ^ 53)%Z) ->
  contract (social_deeds (mkSocialDeedsArgs (accountId u) (lit "0")
                                            (parseInt count)))
  = Normal result ->
  let s' := fst (exec contract (Overview.fetchData u) s) in
  (exists k, Overview.fetchData u = Await get_deeds_count k)
  /\ snd (exec contract (Overview.fetchData u) s) = Done tt
  /\ requests (log s')
     = requests (log s)
       ++ [get_deeds_count;
           social_deeds (mkSocialDeedsArgs (accountId u) (lit "0")
                                           (parseInt count))]
  /\ (forall n, (0 <= n <= 2 ^ 53)%Z ->
                count = JNum n \/ count = JStr (decimalOf n) ->
                parseInt count = Some n)
  /\ Overview.splitArrayIntoChunksOfLen result 2 = Some (deeds s')
  /\ List.concat (deeds s') = result
  /\ List.length (deeds s') = (List.length result + 1) / 2
  /\ (forall k, k + 1 < List.length (deeds s') ->
                List.length (nth k (deeds s') []) = 2)
  /\ (deeds s' <> [] ->
      (List.length (last (deeds s') []) = 1 <-> Nat.Odd (List.length result))
      /\ (List.length (last (deeds s') []) = 2
          <-> Nat.Even (List.length result)))
  /\ map fst (List.concat (Overview.rows u (deeds s'))) = result.
Proof.
  intros Hcount _ _ Hpage.
  destruct (chunksLoop_two result (List.length result) [] 0)
    as (chunks & Hsplit & _); [lia|].
  cbn [app] in Hsplit.
  change (Overview.chunksLoop (List.length result) result 2 [] 0
            (List.length result))
    with (Overview.splitArrayIntoChunksOfLen result 2) in Hsplit.
  destruct (rows_of_two_shape result chunks Hsplit)
    as (Hcat & Hlen & Hfull & Hlast).
  assert (Hexec : exec contract (Overview.fetchData u) s
    = (apply (setDeeds chunks)
         (apply (console_log (LogDeeds result))
            (record (social_deeds (mkSocialDeedsArgs (accountId u) (lit "0")
                                                     (parseInt count)))
               (record get_deeds_count s))), Done tt)).
  { unfold Overview.fetchData. cbn [exec]. rewrite Hcount.
    cbn [exec]. rewrite Hpage. cbn [exec]. rewrite Hsplit. reflexivity. }
  intros s'. subst s'. rewrite Hexec. cbn [fst snd apply deeds].
  split; [eexists; reflexivity|]. split; [reflexivity|].
  split; [|split; [|split; [|split; [|split; [|split; [|split]]]]]].
  - cbn [apply record log]. rewrite !requests_app. cbn [requests].
    rewrite app_nil_r, <- app_assoc. reflexivity.
  - intros n Hn [-> | ->]; apply parseInt_decimalOf; lia.
  - exact Hsplit.
  - exact Hcat.
  - exact Hlen.
  - exact Hfull.
  - exact Hlast.
  - rewrite rows_deeds. exact Hcat.
Qed.

Lemma fetchData_sample_count :
  Sample.ledger get_deeds_count = Normal (JStr (lit "5"))
  /\ parseInt (JStr (lit "5")) = Some 5%Z
  /\ Sample.ledger
       (social_deeds (mkSocialDeedsArgs (accountId Sample.alice) (lit "0")
                                        (parseInt (JStr (lit "5")))))
     = Normal Sample.page
  /\ snd (exec Sample.ledger (Overview.fetchData Sample.alice)
               (App.mount Sample.window0)) = Done tt
  /\ List.concat
       (deeds (fst (exec Sample.ledger (Overview.fetchData Sample.alice)
                         (App.mount Sample.window0))))
     = Sample.page
  /\ List.length
       (deeds (fst (exec Sample.ledger (Overview.fetchData Sample.alice)
                         (App.mount Sample.window0))))
     = 2.
Proof.
  assert (Hsafe : forall n, parseInt (JStr (lit "5")) = Some n ->
                            (Z.abs n <= 2 ^ 53)%Z).
  { intros n H. injection H as <-. discriminate. }
  assert (Hnum : forall z, JStr (lit "5") = JNum z -> (Z.abs z <= 2 ^ 53)%Z)
    by discriminate.
  split; [reflexivity|]. split; [reflexivity|]. split; [reflexivity|].
  destruct (fetchData_count_then_page Sample.ledger Sample.alice
              (App.mount Sample.window0) (JStr (lit "5")) Sample.page
              eq_refl Hnum Hsafe eq_refl)
    as (_ & Hdone & _ & _ & _ & Hcat & Hlen & _).
  split; [exact Hdone|]. split; [exact Hcat | exact Hlen].
Defined.

(** ** The transaction notifier *)

Lemma transactionEffect_error (props : App.Props) (contract : Contract)
    (s : Store) (m : jsstring) :
  truthy (App.error props) = true ->
  decodeURI (text (App.error props)) = Normal m ->
  messagesSet (App.transactionEffect props) contract s = [m]
  /\ exec contract (App.transactionEffect props) s
     = (apply (history_pushState []
                 (originPlusPathname (url (current (window s)))))
              (apply (setMessage m) s), Done tt).
Proof.
  intros Ht Hd. unfold App.transactionEffect. rewrite Ht, Hd.
  split; reflexivity.
Qed.

Lemma transactionEffect_throw (props : App.Props) (contract : Contract)
    (s : Store) (e : exn) :
  truthy (App.error props) = true ->
  decodeURI (text (App.error props)) = Throw e ->
  messagesSet (App.transactionEffect props) contract s = []
  /\ exec contract (App.transactionEffect props) s = (s, Failed e).
Proof.
  intros Ht Hd. unfold App.transactionEffect. rewrite Ht, Hd.
  split; reflexivity.
Qed.

Lemma transactionEffect_success (props : App.Props) (contract : Contract)
    (s : Store) :
  truthy (App.error props) = false ->
  truthy (App.lastTransaction props) = true ->
  let m := lit "Successfully executed transaction "
           ++ text (App.lastTransaction props) in
  messagesSet (App.transactionEffect props) contract s = [m]
  /\ exec contract (App.transactionEffect props) s
     = (apply (history_pushState []
                 (originPlusPathname (url (current (window s)))))
              (apply (setMessage m) s), Done tt).
Proof.
  intros He Ht. unfold App.transactionEffect. rewrite He, Ht.
  split; reflexivity.
Qed.

Lemma transactionEffect_none (props : App.Props) (contract : Contract)
    (s : Store) :
  truthy (App.error props) = false ->
  truthy (App.lastTransaction props) = false ->
  messagesSet (App.transactionEffect props) contract s = []
  /\ exec contract (App.transactionEffect props) s = (s, Done tt).
Proof.
  intros He Ht. unfold App.transactionEffect. rewrite He, Ht.
  split; reflexivity.
Qed.

(** C5, as the claim states it, fails: with both an error and a
    transaction id present, an error payload that [decodeURI] rejects (here
    a message with a bare percent sign) ends the effect with a URIError and
    no message at all is produced. *)
Lemma error_payload_rejected_no_message :
  let props := App.mkProps (Some Sample.alice) (Some (lit "9xGq"))
                 (Some (lit "Exceeded 100% of the prepaid gas")) in
  truthy (App.error props) = true
  /\ truthy (App.lastTransaction props) = true
  /\ messagesSet (App.transactionEffect props) Sample.ledger
                 (App.mount Sample.window0) = []
  /\ exec Sample.ledger (App.transactionEffect props)
          (App.mount Sample.window0)
     = (App.mount Sample.window0, Failed URIError).
Proof. repeat split. Qed.

(** C5, amended.  With a non-empty error payload that [decodeURI] accepts,
    exactly one message is set and it is the decoded error, whether or not a
    transaction id is present as well; an error payload that [decodeURI]
    rejects ends the effect with that exception and sets no message; without
    a non-empty error, a non-empty transaction id sets the one message
    "Successfully executed transaction <id>"; with neither, the effect sets
    no message and changes nothing. *)
Theorem notifier_error_wins :
  (forall props contract s m,
      truthy (App.error props) = true ->
      decodeURI (text (App.error props)) = Normal m ->
      messagesSet (App.transactionEffect props) contract s = [m]
      /\ message (fst (exec contract (App.transactionEffect props) s)) = m
      /\ snd (exec contract (App.transactionEffect props) s) = Done tt)
  /\ (forall props contract s e,
      truthy (App.error props) = true ->
      decodeURI (text (App.error props)) = Throw e ->
      messagesSet (App.transactionEffect props) contract s = []
      /\ exec contract (App.transactionEffect props) s = (s, Failed e))
  /\ (forall props contract s,
      truthy (App.error props) = false ->
      truthy (App.lastTransaction props) = true ->
      let m := lit "Successfully executed transaction "
               ++ text (App.lastTransaction props) in
      messagesSet (App.transactionEffect props) contract s = [m]
      /\ message (fst (exec contract (App.transactionEffect props) s)) = m
      /\ snd (exec contract (App.transactionEffect props) s) = Done tt)
  /\ (forall props contract s,
      truthy (App.error props) = false ->
      truthy (App.lastTransaction props) = false ->
      messagesSet (App.transactionEffect props) contract s = []
      /\ exec contract (App.transactionEffect props) s = (s, Done tt)).
Proof.
  split; [|split; [|split]].
  - intros props contract s m Ht Hd.
    destruct (transactionEffect_error props contract s m Ht Hd) as [Hm Hx].
    rewrite Hx. repeat split; assumption.
  - intros props contract s e Ht Hd.
    exact (transactionEffect_throw props contract s e Ht Hd).
  - intros props contract s He Ht m.
    destruct (transactionEffect_success props contract s He Ht) as [Hm Hx].
    fold m in Hm, Hx. rewrite Hx. repeat split; assumption.
  - intros props contract s He Ht.
    exact (transactionEffect_none props contract s He Ht).
Qed.

Lemma notifier_error_wins_sample :
  let both := App.mkProps (Some Sample.alice) (Some (lit "9xGq"))
                (Some (lit "Not%20enough%20balance")) in
  let bad := App.mkProps (Some Sample.alice) (Some (lit "9xGq"))
               (Some (lit "Exceeded 100% of the prepaid gas")) in
  let ok := App.mkProps (Some Sample.alice) (Some (lit "9xGq")) None in
  let quiet := App.mkProps (Some Sample.alice) None (Some []) in
  let s := App.mount Sample.window0 in
  messagesSet (App.transactionEffect both) Sample.ledger s
  = [lit "Not enough balance"]
  /\ exec Sample.ledger (App.transactionEffect bad) s = (s, Failed URIError)
  /\ messagesSet (App.transactionEffect ok) Sample.ledger s
     = [lit "Successfully executed transaction 9xGq"]
  /\ exec Sample.ledger (App.transactionEffect quiet) s = (s, Done tt).
Proof.
  intros both bad ok quiet s.
  destruct notifier_error_wins as (Herr & Hthrow & Hok & Hnone).
  split; [|split; [|split]].
  - apply (Herr both Sample.ledger s (lit "Not enough balance"));
      reflexivity.
  - apply (Hthrow bad Sample.ledger s URIError); reflexivity.
  - apply (Hok ok Sample.ledger s); reflexivity.
  - apply (Hnone quiet Sample.ledger s); reflexivity.
Defined.

(** What the effect does when it sets a message: the push of
    [origin + pathname]. *)
Lemma transactionEffect_consumes (props : App.Props) (contract : Contract)
    (s : Store) :
  messagesSet (App.transactionEffect props) contract s <> [] ->
  exists m,
    messagesSet (App.transactionEffect props) contract s = [m]
    /\ exec contract (App.transactionEffect props) s
       = (apply (history_pushState []
                   (originPlusPathname (url (current (window s)))))
                (apply (setMessage m) s), Done tt).
Proof.
  intros Hset.
  destruct (truthy (App.error props)) eqn:He.
  - destruct (decodeURI (text (App.error props))) as [m|e] eqn:Hd.
    + exists m. exact (transactionEffect_error props contract s m He Hd).
    + destruct (transactionEffect_throw props contract s e He Hd) as [Hm _].
      contradiction.
  - destruct (truthy (App.lastTransaction props)) eqn:Ht.
    + eexists. exact (transactionEffect_success props contract s He Ht).
    + destruct (transactionEffect_none props contract s He Ht) as [Hm _].
      contradiction.
Qed.

Lemma transactionEffect_at_most_one (props : App.Props)
    (contract : Contract) (s : Store) :
  List.length (messagesSet (App.transactionEffect props) contract s) <= 1.
Proof.
  destruct (messagesSet (App.transactionEffect props) contract s) eqn:E;
    [cbn; lia|].
  destruct (transactionEffect_consumes props contract s) as (m & Hm & _);
    [rewrite E; discriminate|].
  rewrite E in Hm. rewrite Hm. cbn. lia.
Qed.

(** C6, as the claim states it, fails: a URL that carries an error payload
    which [decodeURI] rejects carries a signal, processing it ends with a
    URIError before the navigation state is rewritten, and the state that
    remains carries the same signal. *)
Lemma rejected_signal_stays_in_url :
  let w := Sample.redirected (lit "Exceeded 100% of the prepaid gas") in
  let props := Spec.propsOf (Some Sample.alice) w in
  let s' := fst (exec Sample.ledger (App.transactionEffect props)
                      (App.mount w)) in
  Spec.signalOf props = Spec.Failure (lit "Exceeded 100% of the prepaid gas")
  /\ window s' = w
  /\ Spec.signalOf (Spec.propsOf (Some Sample.alice) (window s'))
     <> Spec.NoSignal.
Proof. repeat split. discriminate. Qed.

(** C6, amended.  The effect sets at most one message per run.  When it sets
    one, it has pushed [origin + pathname] as the current URL, which carries
    no signal: the props read from the resulting navigation state make the
    effect set no message and change nothing.  When [decodeURI] rejects the
    error payload, the navigation state is left as it was. *)
Theorem signal_consumed_once :
  (forall props contract s,
      List.length (messagesSet (App.transactionEffect props) contract s) <= 1)
  /\ (forall props contract s,
      messagesSet (App.transactionEffect props) contract s <> [] ->
      let s' := fst (exec contract (App.transactionEffect props) s) in
      search (url (current (window s'))) = []
      /\ forall currentUser contract',
          let props' := Spec.propsOf currentUser (window s') in
          Spec.signalOf props' = Spec.NoSignal
          /\ messagesSet (App.transactionEffect props') contract' s' = []
          /\ exec contract' (App.transactionEffect props') s' = (s', Done tt))
  /\ (forall props contract s e,
      truthy (App.error props) = true ->
      decodeURI (text (App.error props)) = Throw e ->
      window (fst (exec contract (App.transactionEffect props) s)) = window s).
Proof.
  split; [exact transactionEffect_at_most_one|]. split.
  - intros props contract s Hset.
    destruct (transactionEffect_consumes props contract s Hset)
      as (m & _ & Hx).
    rewrite Hx. cbn [fst]. split; [reflexivity|].
    intros currentUser contract'. repeat split.
  - intros props contract s e Ht Hd.
    destruct (transactionEffect_throw props contract s e Ht Hd) as [_ Hx].
    rewrite Hx. reflexivity.
Qed.

Lemma signal_consumed_once_sample :
  let w := Sample.redirected (lit "Not%20enough%20balance") in
  let props := Spec.propsOf (Some Sample.alice) w in
  let s' := fst (exec Sample.ledger (App.transactionEffect props)
                      (App.mount w)) in
  messagesSet (App.transactionEffect props) Sample.ledger (App.mount w)
  <> []
  /\ message s' = lit "Not enough balance"
  /\ search (url (current (window s'))) = []
  /\ exec Sample.ledger
          (App.transactionEffect (Spec.propsOf (Some Sample.alice) (window s')))
          s'
     = (s', Done tt)
  /\ (let bad := Sample.redirected (lit "Exceeded 100% of the prepaid gas") in
      window (fst (exec Sample.ledger
                        (App.transactionEffect
                           (Spec.propsOf (Some Sample.alice) bad))
                        (App.mount bad)))
      = bad).
Proof.
  intros w props s'.
  assert (Hset : messagesSet (App.transactionEffect props) Sample.ledger
                             (App.mount w) <> []) by discriminate.
  destruct signal_consumed_once as (_ & Hconsumed & Hrejected).
  destruct (Hconsumed props Sample.ledger (App.mount w) Hset) as [Hs Hre].
  split; [exact Hset|]. split; [reflexivity|]. split; [exact Hs|].
  split; [exact (proj2 (proj2 (Hre (Some Sample.alice) Sample.ledger)))|].
  intros bad.
  apply (Hrejected (Spec.propsOf (Some Sample.alice) bad) Sample.ledger
                   (App.mount bad) URIError); reflexivity.
Defined.

(** ** Writes to the navigation state *)

Lemma signOut_replaces (contract : Contract) (s : Store) :
  exec contract App.signOut s
  = (apply (location_replace
              (originPlusPathname (url (current (window s)))))
           (apply wallet_signOut s), Done tt).
Proof. reflexivity. Qed.

(** C9, as the claim states it, fails: back from the wallet on a URL that
    also holds a parameter and a fragment of the application's own and an
    entry state, the notifier's purge drops the parameter, the fragment and
    the state along with the signal, and so does sign-out. *)
Lemma purge_drops_unrelated_navigation_data :
  let w := Sample.redirected (lit "Not%20enough%20balance") in
  let props := Spec.propsOf (Some Sample.alice) w in
  let purged := window (fst (exec Sample.ledger (App.transactionEffect props)
                                  (App.mount w))) in
  let left := window (fst (exec Sample.ledger App.signOut (App.mount w))) in
  Spec.get (lit "tab") (search (url (current w))) = Some (lit "mine")
  /\ hash (url (current w)) = lit "#deed-7"
  /\ state (current w) = [(lit "idx", lit "3")]
  /\ Spec.get (lit "tab") (search (url (current purged))) = None
  /\ hash (url (current purged)) = []
  /\ state (current purged) = []
  /\ Spec.get (lit "tab") (search (url (current left))) = None
  /\ hash (url (current left)) = []
  /\ state (current left) = [].
Proof. repeat split. Qed.

(** C9, amended.  Both writes read the current location and set the URL to
    its [origin + pathname]: the origin and the pathname are kept, the whole
    query and the fragment are dropped and the entry's state is empty.  The
    notifier, when it sets a message, pushes that entry on top of the
    history, so that the entries behind and the entry it leaves stay as they
    were; sign-out replaces the current entry and keeps the entries behind
    and ahead. *)
Theorem navigation_writes_reset_to_origin_pathname :
  (forall props contract s,
      messagesSet (App.transactionEffect props) contract s <> [] ->
      let w := window s in
      let w' := window (fst (exec contract (App.transactionEffect props) s)) in
      w' = pushEntry (mkEntry (originPlusPathname (url (current w))) []) w
      /\ origin (url (current w')) = origin (url (current w))
      /\ pathname (url (current w')) = pathname (url (current w))
      /\ search (url (current w')) = []
      /\ hash (url (current w')) = []
      /\ state (current w') = []
      /\ back w' = current w :: back w)
  /\ (forall contract s,
      let w := window s in
      let w' := window (fst (exec contract App.signOut s)) in
      w' = replaceEntry (mkEntry (originPlusPathname (url (current w))) []) w
      /\ origin (url (current w')) = origin (url (current w))
      /\ pathname (url (current w')) = pathname (url (current w))
      /\ search (url (current w')) = []
      /\ hash (url (current w')) = []
      /\ state (current w') = []
      /\ back w' = back w
      /\ forward w' = forward w).
Proof.
  split.
  - intros props contract s Hset.
    destruct (transactionEffect_consumes props contract s Hset)
      as (m & _ & Hx).
    cbv zeta. rewrite Hx. repeat split.
  - intros contract s. cbv zeta. rewrite signOut_replaces. repeat split.
Qed.

Lemma navigation_writes_sample :
  let w := Sample.redirected (lit "Not%20enough%20balance") in
  let props := Spec.propsOf (Some Sample.alice) w in
  messagesSet (App.transactionEffect props) Sample.ledger (App.mount w) <> []
  /\ window (fst (exec Sample.ledger (App.transactionEffect props)
                       (App.mount w)))
     = pushEntry (mkEntry Sample.home []) w.
Proof.
  intros w props.
  assert (Hset : messagesSet (App.transactionEffect props) Sample.ledger
                             (App.mount w) <> []) by discriminate.
  split; [exact Hset|].
  exact (proj1 (proj1 navigation_writes_reset_to_origin_pathname
                  props Sample.ledger (App.mount w) Hset)).
Defined.

(** ** The registration check while pending and when it fails *)

Lemma fetchRegistered_suspends (u : Identity) (s : Store) :
  sync (App.fetchRegistered (Some u)) s = (s, App.fetchRegistered (Some u))
  /\ isPending (App.fetchRegistered (Some u)) = true.
Proof. split; reflexivity. Qed.

Lemma routes_unregistered (u : Identity) (r : App.route) :
  Spec.protected r = true ->
  App.routes (Some u) false r = App.Register.
Proof. destruct r; intros H; (reflexivity || discriminate H). Qed.

(** C7, as the claim states it, fails: right after App mounts with an
    identity, the registration check is suspended on its call and the index
    route renders the register view. *)
Lemma register_view_while_check_pending :
  let started := sync (App.fetchRegistered (Some Sample.alice))
                      (App.mount Sample.window0) in
  isPending (snd started) = true
  /\ App.routes (Some Sample.alice) (registered (fst started)) App.index
     = App.Register
  /\ Spec.branchOf
       (App.routes (Some Sample.alice) (registered (fst started)) App.index)
     = Some Spec.RegisterBranch.
Proof. repeat split. Qed.

(** C7, amended.  The registration check of an identity suspends on its
    [is_registered] call without touching the store, so while it is pending
    the [registered] flag has the value it had before; it is false from
    mount on, and until the check resolves every protected route renders the
    register view for the identity, not the content view. *)
Theorem pending_check_renders_register :
  (forall u s,
      sync (App.fetchRegistered (Some u)) s = (s, App.fetchRegistered (Some u))
      /\ isPending (snd (sync (App.fetchRegistered (Some u)) s)) = true
      /\ registered (fst (sync (App.fetchRegistered (Some u)) s))
         = registered s)
  /\ (forall u w r,
      Spec.protected r = true ->
      let started := sync (App.fetchRegistered (Some u)) (App.mount w) in
      App.routes (Some u) (registered (fst started)) r = App.Register
      /\ Spec.branchOf (App.routes (Some u) (registered (fst started)) r)
         = Some Spec.RegisterBranch).
Proof.
  split.
  - intros u s. repeat split.
  - intros u w r Hr started. subst started. cbn [sync App.fetchRegistered fst].
    change (registered (App.mount w)) with false.
    rewrite (routes_unregistered u r Hr). split; reflexivity.
Qed.

Lemma pending_check_sample :
  Spec.protected App.overview = true
  /\ App.routes (Some Sample.bob)
       (registered (fst (sync (App.fetchRegistered (Some Sample.bob))
                              (App.mount Sample.window0))))
       App.overview
     = App.Register.
Proof.
  split; [reflexivity|].
  exact (proj1 (proj2 pending_check_renders_register Sample.bob
                  Sample.window0 App.overview eq_refl)).
Defined.

Lemma fetchRegistered_rejected (contract : Contract) (u : Identity)
    (s : Store) (e : exn) :
  contract (is_registered (accountId u)) = Throw e ->
  exec contract (App.fetchRegistered (Some u)) s
  = (record (is_registered (accountId u)) s, Failed e).
Proof. intros H. cbn [App.fetchRegistered exec]. rewrite H. reflexivity. Qed.

(** C8, as the claim states it, fails: when the registration check is
    rejected, the session of a signed-in account shows the register view,
    the very view a ledger on which the account is not registered gives. *)
Lemma failed_check_shows_register_view :
  let failed := exec Sample.offline (App.fetchRegistered (Some Sample.alice))
                     (App.mount Sample.window0) in
  let refused := exec Sample.unregistered
                      (App.fetchRegistered (Some Sample.alice))
                      (App.mount Sample.window0) in
  snd failed = Failed (Rejected (lit "Failed to fetch"))
  /\ snd refused = Done tt
  /\ App.routes (Some Sample.alice) (registered (fst failed)) App.overview
     = App.Register
  /\ App.routes (Some Sample.alice) (registered (fst refused)) App.overview
     = App.Register
  /\ message (fst failed) = message (fst refused).
Proof. repeat split. Qed.

(** C8, amended.  When the registration check is rejected, the rejection
    is not handled: the effect ends with it after the one request, and the
    [registered] flag and the message keep the values they had.  From mount
    on the flag is false, so every protected route renders the register view
    for the identity, the same element a check that resolves false gives. *)
Theorem failed_check_keeps_flag (contract : Contract) (u : Identity)
    (s : Store) (e : exn) :
  contract (is_registered (accountId u)) = Throw e ->
  let s' := fst (exec contract (App.fetchRegistered (Some u)) s) in
  snd (exec contract (App.fetchRegistered (Some u)) s) = Failed e
  /\ requests (log s') = requests (log s) ++ [is_registered (accountId u)]
  /\ registered s' = registered s
  /\ message s' = message s
  /\ (forall r, App.routes (Some u) (registered s') r
                = App.routes (Some u) (registered s) r)
  /\ (forall r,
         Spec.protected r = true -> registered s = false ->
         App.routes (Some u) (registered s') r = App.Register)
  /\ (forall (contract' : Contract) r,
         contract' (is_registered (accountId u)) = Normal false ->
         registered s = false ->
         App.routes (Some u) (registered s') r
         = App.routes (Some u)
             (registered (fst (exec contract' (App.fetchRegistered (Some u)) s)))
             r).
Proof.
  intros H s'. subst s'. rewrite (fetchRegistered_rejected contract u s e H).
  cbn [fst snd record registered message log].
  repeat split.
  - rewrite requests_app. reflexivity.
  - intros r Hr Hs. rewrite Hs. apply routes_unregistered. exact Hr.
  - intros contract' r H' Hs.
    rewrite (fetchRegistered_resolved contract' u s false H').
    cbn [fst apply registered]. rewrite Hs. reflexivity.
Qed.

Lemma failed_check_sample :
  Sample.offline (is_registered (accountId Sample.alice))
  = Throw (Rejected (lit "Failed to fetch"))
  /\ snd (exec Sample.offline (App.fetchRegistered (Some Sample.alice))
               (App.mount Sample.window0))
     = Failed (Rejected (lit "Failed to fetch"))
  /\ App.routes (Some Sample.alice)
       (registered
          (fst (exec Sample.offline (App.fetchRegistered (Some Sample.alice))
                     (App.mount Sample.window0))))
       App.donate
     = App.Register.
Proof.
  split; [reflexivity|].
  destruct (failed_check_keeps_flag Sample.offline Sample.alice
              (App.mount Sample.window0) (Rejected (lit "Failed to fetch"))
              eq_refl) as (Hfail & _ & _ & _ & _ & Hreg & Hsame).
  split; [exact Hfail|].
  pose proof (Hsame Sample.unregistered App.donate eq_refl eq_refl) as _.
  exact (Hreg App.donate eq_refl eq_refl).
Defined.

(** ** The credit handler *)

Lemma credit_constants :
  App.BOATLOAD_OF_GAS = lit "30000000000000"
  /\ toFixed (times (mkBig 2 (-3)) (tenTo 24)) = lit "2000000000000000000000"
  /\ parseInt (JStr (lit "2000000000000000000000")) = Some (2 * 10 ^ 21)%Z.
Proof. repeat split. Qed.

(** C10.  For a deed flagged [is_creditor] the credit handler sends no
    request and sets the message "You already credited deed #<id>"; for an
    unflagged deed it sends the one request [credit] with the deed's id, the
    gas budget 30000000000000 and the deposit 2000000000000000000000
    yoctoNEAR (2 * 10^21, that is 0.002 NEAR), and leaves the message as it
    was, whether the call resolves or is rejected. *)
Theorem onCredit_guard :
  (forall (contract : Contract) deed s,
      is_creditor deed = true ->
      let s' := fst (exec contract (App.onCredit deed) s) in
      requests (log s') = requests (log s)
      /\ log s' = log s
      /\ message s' = lit "You already credited deed #" ++ ToString (id deed)
      /\ snd (exec contract (App.onCredit deed) s) = Done tt)
  /\ (forall (contract : Contract) deed s,
      is_creditor deed = false ->
      let s' := fst (exec contract (App.onCredit deed) s) in
      requests (log s')
      = requests (log s)
        ++ [credit (id deed) (lit "30000000000000")
                   (lit "2000000000000000000000")]
      /\ message s' = message s
      /\ snd (exec contract (App.onCredit deed) s) = Done tt)
  /\ parseInt (JStr (lit "2000000000000000000000")) = Some (2 * 10 ^ 21)%Z.
Proof.
  destruct credit_constants as (Hgas & Hdeposit & Hyocto).
  split; [|split; [|exact Hyocto]].
  - intros contract deed s H. unfold App.onCredit. rewrite H.
    repeat split.
  - intros contract deed s H. unfold App.onCredit. rewrite H.
    rewrite Hgas, Hdeposit. cbn [exec].
    destruct (contract (credit (id deed) (lit "30000000000000")
                               (lit "2000000000000000000000")));
      cbn [exec fst snd apply record log message];
      rewrite ?requests_app; cbn [requests]; rewrite ?app_nil_r;
      repeat split.
Qed.

Lemma onCredit_sample :
  let credited := Sample.deedOf 3 Sample.bob true in
  let fresh := Sample.deedOf 1 Sample.bob false in
  let s := App.mount Sample.window0 in
  message (fst (exec Sample.ledger (App.onCredit credited) s))
  = lit "You already credited deed #3"
  /\ requests (log (fst (exec Sample.ledger (App.onCredit credited) s))) = []
  /\ requests (log (fst (exec Sample.ledger (App.onCredit fresh) s)))
     = [credit (JNum 1) (lit "30000000000000")
               (lit "2000000000000000000000")].
Proof.
  intros credited fresh s.
  destruct onCredit_guard as (Hflag & Hcall & _).
  destruct (Hflag Sample.ledger credited s eq_refl) as (Hreq & _ & Hmsg & _).
  destruct (Hcall Sample.ledger fresh s eq_refl) as (Hsent & _).
  split; [exact Hmsg|]. split; [exact Hreq | exact Hsent].
Defined.
(** ** The row partition at any width *)

Section AnyWidth.
Context {A : Type}.
Variables (arr : list A) (len : nat).
Hypothesis len_positive : 0 < len.

Lemma slice_length (i : nat) :
  List.length (Overview.slice arr i (i + len))
  = Nat.min len (List.length arr - i).
Proof.
  unfold Overview.slice. replace (i + len - i) with len by lia.
  rewrite length_firstn, length_skipn. reflexivity.
Qed.

Lemma slice_skipn (i : nat) :
  Overview.slice arr i (i + len) ++ skipn (i + len) arr = skipn i arr.
Proof.
  unfold Overview.slice. replace (i + len - i) with len by lia.
  replace (i + len) with (len + i) by lia.
  rewrite <- skipn_skipn. apply firstn_skipn.
Qed.

Lemma ceil_step (m : nat) :
  0 < m -> (m + (len - 1)) / len = S ((m - len + (len - 1)) / len).
Proof.
  intros Hm. destruct (Nat.le_gt_cases len m) as [Hle|Hgt].
  - replace (m + (len - 1)) with (m - len + (len - 1) + 1 * len) by lia.
    rewrite Nat.div_add by lia. lia.
  - replace (m - len) with 0 by lia. cbn [Nat.add].
    rewrite (Nat.div_small (len - 1) len) by lia.
    symmetry. apply (Nat.div_unique _ len 1 (m - 1)); lia.
Qed.

(** The loop from index [i] on, with enough fuel. *)
Lemma chunksLoop_rows (fuel : nat) : forall chunks i,
  List.length arr - i <= fuel ->
  exists rest,
    Overview.chunksLoop fuel arr len chunks i (List.length arr)
    = Some (chunks ++ rest)
    /\ List.concat rest = skipn i arr
    /\ List.length rest = (List.length arr - i + (len - 1)) / len
    /\ (forall k, k < List.length rest ->
          nth k rest [] = Overview.slice arr (i + k * len) (i + k * len + len)).
Proof.
  induction fuel as [|fuel IH]; intros chunks i Hfuel;
    cbn [Overview.chunksLoop];
    destruct (Nat.ltb_spec i (List.length arr)) as [Hlt|Hge]; try lia.
  - exists []. rewrite app_nil_r, skipn_all2 by lia.
    replace (List.length arr - i) with 0 by lia.
    rewrite Nat.div_small by lia.
    repeat split. intros k Hk. cbn in Hk. lia.
  - destruct (IH (chunks ++ [Overview.slice arr i (i + len)]) (i + len))
      as (rest & Hrun & Hcat & Hlen & Hnth); [lia|].
    exists (Overview.slice arr i (i + len) :: rest).
    rewrite Hrun, <- app_assoc. cbn [app List.concat List.length].
    split; [reflexivity|]. split; [|split].
    + rewrite Hcat. apply slice_skipn.
    + rewrite Hlen, (ceil_step (List.length arr - i)) by lia.
      do 3 f_equal. lia.
    + intros [|k] Hk.
      * cbn [nth]. f_equal; lia.
      * cbn [nth]. rewrite Hnth by lia. f_equal; lia.
  - exists []. rewrite app_nil_r, skipn_all2 by lia.
    replace (List.length arr - i) with 0 by lia.
    rewrite Nat.div_small by lia.
    repeat split. intros k Hk. cbn in Hk. lia.
Qed.

End AnyWidth.

Lemma ceil_rows_cover (n len k : nat) :
  0 < len -> k < (n + (len - 1)) / len -> k * len < n.
Proof.
  intros Hlen Hk.
  pose proof (Nat.Div0.mul_div_le (n + (len - 1)) len) as Hq.
  assert (len * S k <= len * ((n + (len - 1)) / len))
    by (apply Nat.mul_le_mono_l; lia).
  lia.
Qed.

Lemma ceil_rows_reach (n len j : nat) :
  0 < len -> j < n -> j / len < (n + (len - 1)) / len.
Proof.
  intros Hlen Hj. apply Nat.Div0.div_lt_upper_bound.
  pose proof (Nat.div_mod_eq (n + (len - 1)) len) as Hd.
  pose proof (Nat.mod_upper_bound (n + (len - 1)) len) as Hm.
  lia.
Qed.

(** X1.  At any width of at least one, the partition returns: it yields
    [ceil(N/len)] rows whose concatenation is the array, every row holds
    between one and [len] items, and every row but the last holds exactly
    [len]. *)
Theorem split_rows_any_width {A : Type} (arr : list A) (len : nat) :
  0 < len ->
  exists rows,
    Overview.splitArrayIntoChunksOfLen arr len = Some rows
    /\ List.concat rows = arr
    /\ List.length rows = (List.length arr + (len - 1)) / len
    /\ Forall (fun row => 1 <= List.length row <= len) rows
    /\ (forall k, k + 1 < List.length rows ->
                  List.length (nth k rows []) = len).
Proof.
  intros Hlen.
  destruct (chunksLoop_rows arr len Hlen (List.length arr) [] 0)
    as (rows & Hrun & Hcat & Hcount & Hnth); [lia|].
  rewrite Nat.sub_0_r in Hcount. cbn [app skipn] in Hrun, Hcat.
  exists rows. split; [exact Hrun|]. split; [exact Hcat|].
  split; [exact Hcount|]. split.
  - apply Forall_nth. intros k d Hk.
    rewrite (nth_indep rows d [] Hk), (Hnth k Hk).
    cbn [Nat.add]. rewrite slice_length by assumption.
    pose proof (ceil_rows_cover (List.length arr) len k Hlen) as Hcover.
    rewrite <- Hcount in Hcover. specialize (Hcover Hk). lia.
  - intros k Hk. rewrite (Hnth k) by lia.
    cbn [Nat.add]. rewrite slice_length by assumption.
    pose proof (ceil_rows_cover (List.length arr) len (S k) Hlen) as Hcover.
    rewrite <- Hcount in Hcover. cbn [Nat.mul] in Hcover. lia.
Qed.

Lemma split_rows_any_width_sample :
  exists rows,
    Overview.splitArrayIntoChunksOfLen [1; 2; 3; 4; 5; 6; 7] 3 = Some rows
    /\ List.concat rows = [1; 2; 3; 4; 5; 6; 7]
    /\ List.length rows = 3.
Proof.
  destruct (split_rows_any_width [1; 2; 3; 4; 5; 6; 7] 3)
    as (rows & Hrun & Hcat & Hcount & _); [lia|].
  exists rows. split; [exact Hrun|]. split; [exact Hcat | exact Hcount].
Defined.

(** X2.  The partition keeps every item at its place in the grid: item [j]
    of the array is item [j mod len] of row [j / len]. *)
Theorem split_rows_grid_position {A : Type} (arr : list A) (len : nat)
    (rows : list (list A)) (j : nat) (d : A) :
  0 < len ->
  Overview.splitArrayIntoChunksOfLen arr len = Some rows ->
  j < List.length arr ->
  nth (j mod len) (nth (j / len) rows []) d = nth j arr d.
Proof.
  intros Hlen Hsplit Hj.
  destruct (chunksLoop_rows arr len Hlen (List.length arr) [] 0)
    as (rows' & Hrun & _ & Hcount & Hnth); [lia|].
  cbn [app] in Hrun. unfold Overview.splitArrayIntoChunksOfLen in Hsplit.
  rewrite Hrun in Hsplit. injection Hsplit as ->.
  rewrite Nat.sub_0_r in Hcount.
  rewrite Hnth
    by (rewrite Hcount; apply ceil_rows_reach; assumption).
  unfold Overview.slice. cbn [Nat.add].
  replace (j / len * len + len - j / len * len) with len by lia.
  pose proof (Nat.mod_upper_bound j len) as Hm.
  rewrite nth_firstn, nth_skipn.
  destruct (Nat.ltb_spec (j mod len) len); [|lia].
  f_equal. pose proof (Nat.div_mod_eq j len). lia.
Qed.

Lemma split_rows_grid_position_sample :
  nth (5 mod 2) (nth (5 / 2) [[10; 11]; [12; 13]; [14; 15]; [16]] []) 0
  = nth 5 [10; 11; 12; 13; 14; 15; 16] 0.
Proof.
  apply (split_rows_grid_position [10; 11; 12; 13; 14; 15; 16] 2);
    [lia | reflexivity | cbn; lia].
Defined.

Lemma chunksLoop_zero_width {A : Type} (arr : list A) (fuel : nat) :
  forall chunks i n,
    i < n -> Overview.chunksLoop fuel arr 0 chunks i n = None.
Proof.
  induction fuel as [|fuel IH]; intros chunks i n Hi;
    cbn [Overview.chunksLoop];
    destruct (Nat.ltb_spec i n); try lia; [reflexivity|].
  apply IH. lia.
Qed.

(** X3.  At width zero the loop does not advance: on an array that is not
    empty it exits for no amount of fuel, and the partition gives no result;
    an empty array gives no rows at any width. *)
Theorem split_rows_zero_width {A : Type} (arr : list A) :
  (arr <> [] ->
   (forall fuel chunks,
       Overview.chunksLoop fuel arr 0 chunks 0 (List.length arr) = None)
   /\ Overview.splitArrayIntoChunksOfLen arr 0 = None)
  /\ (forall len, Overview.splitArrayIntoChunksOfLen (@nil A) len = Some []).
Proof.
  split.
  - intros Hne.
    assert (0 < List.length arr) by (destruct arr; [congruence | cbn; lia]).
    split; [intros fuel chunks|]; apply chunksLoop_zero_width; assumption.
  - intros len. reflexivity.
Qed.

Lemma split_rows_zero_width_sample :
  Overview.splitArrayIntoChunksOfLen [Sample.deedOf 1 Sample.bob false] 0
  = None.
Proof.
  apply (proj1 (split_rows_zero_width [Sample.deedOf 1 Sample.bob false])).
  discriminate.
Defined.

(** ** What decodeURI does to an error payload *)

Lemma Decode_percent_free (pre s : jsstring) :
  ~ In 37%N pre ->
  Decode 0 (pre ++ s)
  = match Decode 0 s with
    | Normal R => Normal (pre ++ R)
    | Throw e => Throw e
    end.
Proof.
  induction pre as [|c pre IH]; intros Hfree.
  - cbn [app]. destruct (Decode 0 s); reflexivity.
  - cbn [app Decode].
    destruct (N.eqb_spec c 37) as [->|_]; [exfalso; apply Hfree; left; reflexivity|].
    rewrite IH by (intros Hin; apply Hfree; right; exact Hin).
    destruct (Decode 0 s); reflexivity.
Qed.

Lemma decodeURI_percent_free (s : jsstring) :
  ~ In 37%N s -> decodeURI s = Normal s.
Proof.
  intros Hfree. unfold decodeURI.
  rewrite <- (app_nil_r s) at 1. rewrite Decode_percent_free by exact Hfree.
  cbn [Decode]. rewrite app_nil_r. reflexivity.
Qed.

Lemma truthy_nonempty (pre post : jsstring) (c : N) :
  truthy (Some (pre ++ c :: post)) = true.
Proof. destruct pre; reflexivity. Qed.

(** X4.  An error payload without a percent sign is shown as it is: the
    effect sets that very text as the one message and purges the URL. *)
Theorem notifier_shows_plain_error_verbatim (props : App.Props)
    (contract : Contract) (s : Store) :
  truthy (App.error props) = true ->
  ~ In 37%N (text (App.error props)) ->
  decodeURI (text (App.error props)) = Normal (text (App.error props))
  /\ messagesSet (App.transactionEffect props) contract s
     = [text (App.error props)]
  /\ message (fst (exec contract (App.transactionEffect props) s))
     = text (App.error props)
  /\ search (url (current
       (window (fst (exec contract (App.transactionEffect props) s))))) = [].
Proof.
  intros Ht Hfree.
  pose proof (decodeURI_percent_free _ Hfree) as Hd.
  destruct (transactionEffect_error props contract s _ Ht Hd) as [Hm Hx].
  rewrite Hx. repeat split; assumption.
Qed.

Lemma notifier_plain_error_sample :
  message
    (fst (exec Sample.ledger
            (App.transactionEffect
               (App.mkProps (Some Sample.alice) None
                            (Some (lit "Not enough balance"))))
            (App.mount Sample.window0)))
  = lit "Not enough balance".
Proof.
  refine (proj1 (proj2 (proj2
    (notifier_shows_plain_error_verbatim
       (App.mkProps (Some Sample.alice) None (Some (lit "Not enough balance")))
       Sample.ledger (App.mount Sample.window0) eq_refl _)))).
  cbn. intuition discriminate.
Defined.

(** X5.  An error payload whose first percent sign does not start an
    escape of two hexadecimal digits is rejected: [decodeURI] throws, and
    the effect ends with the URIError without a message and without
    touching the store. *)
Theorem notifier_rejects_stray_percent (pre post : jsstring)
    (currentUser : option Identity) (lastTransaction : option jsstring)
    (contract : Contract) (s : Store) :
  ~ In 37%N pre ->
  escape (37%N :: post) = None ->
  let props := App.mkProps currentUser lastTransaction
                           (Some (pre ++ 37%N :: post)) in
  decodeURI (pre ++ 37%N :: post) = Throw URIError
  /\ messagesSet (App.transactionEffect props) contract s = []
  /\ exec contract (App.transactionEffect props) s = (s, Failed URIError).
Proof.
  intros Hfree Hesc props.
  assert (Hd : decodeURI (pre ++ 37%N :: post) = Throw URIError).
  { unfold decodeURI. rewrite Decode_percent_free by exact Hfree.
    cbn [Decode]. rewrite N.eqb_refl. unfold decodeEscape.
    rewrite Hesc. reflexivity. }
  split; [exact Hd|].
  apply (transactionEffect_throw props contract s URIError).
  - apply truthy_nonempty.
  - exact Hd.
Qed.

Lemma notifier_stray_percent_sample :
  decodeURI (lit "Fee is 5%") = Throw URIError
  /\ decodeURI (lit "100% sure") = Throw URIError.
Proof.
  split.
  - refine (proj1 (notifier_rejects_stray_percent (lit "Fee is 5") []
                     None None Sample.ledger (App.mount Sample.window0)
                     _ eq_refl)).
    cbn. intuition discriminate.
  - refine (proj1 (notifier_rejects_stray_percent (lit "100") (lit " sure")
                     None None Sample.ledger (App.mount Sample.window0)
                     _ eq_refl)).
    cbn. intuition discriminate.
Defined.

(** X6.  In a payload with one escape of a byte below 128 and no other
    percent sign, the escape becomes the character it names, unless that
    character is one of the reserved [; / ? : @ & = + $ , #], whose escape
    is kept as written; the rest of the text is unchanged. *)
Theorem decodeURI_single_escape (pre post : jsstring) (h l a b : N) :
  ~ In 37%N pre -> ~ In 37%N post ->
  hexval h = Some a -> hexval l = Some b ->
  (16 * a + b < 128)%N ->
  decodeURI (pre ++ 37%N :: h :: l :: post)
  = Normal (pre ++ (if existsb (N.eqb (16 * a + b)) reservedURISet
                    then [37%N; h; l] else [(16 * a + b)%N]) ++ post).
Proof.
  intros Hpre Hpost Hh Hl Hlt.
  unfold decodeURI. rewrite Decode_percent_free by exact Hpre.
  cbn [Decode]. rewrite N.eqb_refl.
  unfold decodeEscape, escape. rewrite N.eqb_refl, Hh, Hl.
  destruct (N.ltb_spec (16 * a + b) 128) as [_|]; [|lia].
  pose proof (decodeURI_percent_free post Hpost) as Hd.
  unfold decodeURI in Hd.
  destruct (existsb (N.eqb (16 * a + b)) reservedURISet);
    cbn [Nat.sub Decode firstn]; rewrite Hd; reflexivity.
Qed.

Lemma decodeURI_single_escape_sample :
  decodeURI (lit "Not%20enough") = Normal (lit "Not enough")
  /\ decodeURI (lit "a%2Fb") = Normal (lit "a%2Fb").
Proof.
  split.
  - refine (decodeURI_single_escape (lit "Not") (lit "enough") 50 48 2 0
              _ _ eq_refl eq_refl eq_refl); cbn; intuition discriminate.
  - refine (decodeURI_single_escape (lit "a") (lit "b") 50 70 2 15
              _ _ eq_refl eq_refl eq_refl); cbn; intuition discriminate.
Defined.

(** ** The feed fetch when a call is rejected *)

(** X7.  When the count request is rejected, no page is requested; when
    the page request is rejected, nothing more is sent.  In both cases the
    fetch ends with the rejection and the rows on display stay as they
    were. *)
Theorem fetchData_rejections (contract : Contract) (u : Identity) (s : Store) :
  (forall e,
      contract get_deeds_count = Throw e ->
      let s' := fst (exec contract (Overview.fetchData u) s) in
      snd (exec contract (Overview.fetchData u) s) = Failed e
      /\ requests (log s') = requests (log s) ++ [get_deeds_count]
      /\ deeds s' = deeds s)
  /\ (forall count e,
      contract get_deeds_count = Normal count ->
      contract (social_deeds (mkSocialDeedsArgs (accountId u) (lit "0")
                                                (parseInt count)))
      = Throw e ->
      let s' := fst (exec contract (Overview.fetchData u) s) in
      snd (exec contract (Overview.fetchData u) s) = Failed e
      /\ requests (log s')
         = requests (log s)
           ++ [get_deeds_count;
               social_deeds (mkSocialDeedsArgs (accountId u) (lit "0")
                                               (parseInt count))]
      /\ deeds s' = deeds s).
Proof.
  split.
  - intros e Hcount s'. subst s'.
    unfold Overview.fetchData. cbn [exec]. rewrite Hcount.
    cbn [exec fst snd record log deeds]. rewrite requests_app.
    repeat split.
  - intros count e Hcount Hpage s'. subst s'.
    unfold Overview.fetchData. cbn [exec]. rewrite Hcount.
    cbn [exec]. rewrite Hpage.
    cbn [exec fst snd record log deeds]. rewrite !requests_app.
    cbn [requests]. rewrite <- app_assoc.
    repeat split.
Qed.

Lemma fetchData_rejections_sample :
  let s := apply (setDeeds [[Sample.deedOf 1 Sample.bob false]])
                 (App.mount Sample.window0) in
  snd (exec Sample.offline (Overview.fetchData Sample.alice) s)
  = Failed (Rejected (lit "Failed to fetch"))
  /\ requests (log (fst (exec Sample.offline
                              (Overview.fetchData Sample.alice) s)))
     = [get_deeds_count]
  /\ deeds (fst (exec Sample.offline (Overview.fetchData Sample.alice) s))
     = [[Sample.deedOf 1 Sample.bob false]].
Proof.
  intros s.
  exact (proj1 (fetchData_rejections Sample.offline Sample.alice s)
               (Rejected (lit "Failed to fetch")) eq_refl).
Defined.

(** ** From the Credit button to the credit call *)

(** X8.  A Credit button has a click handler only on a deed that the viewer
    has not credited and did not author, and the handler passes that very
    deed to [onCredit], which then sends the credit call for the deed's id
    and sets no message: the reply "You already credited" is never reached
    from a button. *)
Theorem credit_button_click (currentUser : Identity) (deed d : Deed)
    (contract : Contract) (s : Store) :
  Overview.onClick (Overview.creditButton currentUser deed) = Some d ->
  d = deed
  /\ is_creditor deed = false
  /\ author deed <> accountId currentUser
  /\ messagesSet (App.onCredit d) contract s = []
  /\ requests (log (fst (exec contract (App.onCredit d) s)))
     = requests (log s)
       ++ [credit (id deed) (lit "30000000000000")
                  (lit "2000000000000000000000")].
Proof.
  unfold Overview.creditButton.
  destruct (is_creditor deed) eqn:Hflag; [discriminate|].
  destruct (eqb (author deed) (accountId currentUser)) eqn:Hauthor;
    [discriminate|].
  cbn [Overview.onClick]. intros H. injection H as <-.
  split; [reflexivity|]. split; [reflexivity|]. split.
  { intros E. apply eqb_eq in E. congruence. }
  destruct credit_constants as (Hgas & Hdeposit & _).
  unfold App.onCredit. rewrite Hflag, Hgas, Hdeposit.
  cbn [messagesSet exec].
  destruct (contract (credit (id deed) (lit "30000000000000")
                             (lit "2000000000000000000000")));
    cbn [messagesSet exec fst apply record log];
    rewrite ?requests_app; cbn [requests]; rewrite ?app_nil_r;
    split; reflexivity.
Qed.

Lemma credit_button_click_sample :
  requests
    (log (fst (exec Sample.ledger
                 (App.onCredit (Sample.deedOf 1 Sample.bob false))
                 (App.mount Sample.window0))))
  = [credit (JNum 1) (lit "30000000000000") (lit "2000000000000000000000")].
Proof.
  exact (proj2 (proj2 (proj2 (proj2
    (credit_button_click Sample.alice (Sample.deedOf 1 Sample.bob false)
       (Sample.deedOf 1 Sample.bob false) Sample.ledger
       (App.mount Sample.window0) eq_refl))))).
Defined.

(** The buttons without a handler. *)
Lemma credit_button_disabled (currentUser : Identity) (deed : Deed) :
  is_creditor deed = true \/ author deed = accountId currentUser ->
  Overview.onClick (Overview.creditButton currentUser deed) = None.
Proof.
  unfold Overview.creditButton. intros [H|H].
  - rewrite H. reflexivity.
  - destruct (is_creditor deed); [reflexivity|].
    rewrite H, eqb_refl. reflexivity.
Qed.

(** ** What each piece of code leaves alone *)

(** X9.  Only the notifier, the credit handler and the dismiss action set
    the message, only the registration check sets the [registered] flag,
    only the feed fetch sets the rows, and only the notifier and sign-out
    write the navigation state, whatever the contract answers; the notifier
    and sign-out send no request, and without an identity the registration
    check ends with a TypeError before any request. *)
Theorem effects_frame :
  (forall (contract : Contract) u s,
      let s' := fst (exec contract (Overview.fetchData u) s) in
      message s' = message s /\ registered s' = registered s
      /\ window s' = window s)
  /\ (forall (contract : Contract) currentUser s,
      let s' := fst (exec contract (App.fetchRegistered currentUser) s) in
      message s' = message s /\ deeds s' = deeds s /\ window s' = window s)
  /\ (forall (contract : Contract) deed s,
      let s' := fst (exec contract (App.onCredit deed) s) in
      registered s' = registered s /\ deeds s' = deeds s
      /\ window s' = window s)
  /\ (forall (contract : Contract) props s,
      let s' := fst (exec contract (App.transactionEffect props) s) in
      registered s' = registered s /\ deeds s' = deeds s /\ log s' = log s)
  /\ (forall (contract : Contract) s,
      let s' := fst (exec contract App.signOut s) in
      message s' = message s /\ registered s' = registered s
      /\ deeds s' = deeds s /\ requests (log s') = requests (log s))
  /\ (forall (contract : Contract) s,
      exec contract (App.fetchRegistered None) s = (s, Failed TypeError)).
Proof.
  split; [|split; [|split; [|split; [|split]]]].
  - intros contract u s. unfold Overview.fetchData. cbn [exec].
    destruct (contract get_deeds_count) as [count|e]; cbn [exec];
      [|repeat split].
    destruct (contract (social_deeds _)) as [result|e]; cbn [exec];
      [|repeat split].
    destruct (Overview.splitArrayIntoChunksOfLen result 2); repeat split.
  - intros contract [u|] s; cbn [App.fetchRegistered exec]; [|repeat split].
    destruct (contract (is_registered (accountId u))); repeat split.
  - intros contract deed s. unfold App.onCredit.
    destruct (is_creditor deed); cbn [exec]; [repeat split|].
    destruct (contract (credit _ _ _)); repeat split.
  - intros contract props s. unfold App.transactionEffect.
    destruct (truthy (App.error props)).
    + destruct (decodeURI (text (App.error props))); repeat split.
    + destruct (truthy (App.lastTransaction props)); repeat split.
  - intros contract s. cbn. rewrite requests_app. cbn [requests].
    rewrite app_nil_r. repeat split.
  - intros contract s. reflexivity.
Qed.

(** ** Deposits through big.js *)

Lemma digitRun_uint (d : Decimal.uint) : forall acc n,
  BigJs.digitRun (lit (NilEmpty.string_of_uint d)) acc n
  = (uintValue d acc,
     n + List.length (lit (NilEmpty.string_of_uint d)), []).
Proof.
  induction d; intros acc n;
    cbn [NilEmpty.string_of_uint uintValue];
    [cbn; rewrite Nat.add_0_r; reflexivity | rewrite lit_cons ..];
    cbn [BigJs.digitRun List.length];
    match goal with
    | |- context [digitOf 10 ?c] =>
        change (digitOf 10 c) with (Some (c - 48)%N)
    end; cbv beta iota; rewrite IHd, Nat.add_succ_r; reflexivity.
Qed.

Lemma parseUnsigned_uint (sign : Z) (d : Decimal.uint) :
  d <> Decimal.Nil ->
  BigJs.parseUnsigned sign (lit (NilEmpty.string_of_uint d))
  = Some (mkBig (sign * uintValue d 0) 0).
Proof.
  intros Hd. unfold BigJs.parseUnsigned. rewrite digitRun_uint.
  destruct d; try congruence;
    cbn [NilEmpty.string_of_uint]; rewrite lit_cons; reflexivity.
Qed.

Lemma parse_uint (d : Decimal.uint) :
  d <> Decimal.Nil ->
  BigJs.parse (lit (NilEmpty.string_of_uint d))
  = Some (mkBig (uintValue d 0) 0).
Proof.
  intros Hd. rewrite <- (Z.mul_1_l (uintValue d 0)).
  rewrite <- (parseUnsigned_uint 1 d Hd).
  destruct d; try congruence; reflexivity.
Qed.

(** big.js reads the decimal notation of a whole amount exactly. *)
Lemma parse_decimalOf (n : Z) :
  (0 <= n)%Z -> BigJs.parse (decimalOf n) = Some (mkBig n 0).
Proof.
  intros Hn. destruct n as [|p|p]; [reflexivity| |lia].
  unfold decimalOf. cbn [Z.to_int NilZero.string_of_int].
  pose proof (Unsigned.to_uint_nonnil p) as Hnil.
  pose proof (Unsigned.of_to p) as Hof.
  unfold NilZero.string_of_uint.
  destruct (Pos.to_uint p) eqn:E; try congruence;
    rewrite parse_uint by discriminate;
    rewrite <- uintValue_of_uint, Hof; reflexivity.
Qed.

Lemma toFixed_whole (n : Z) : toFixed (mkBig n 0) = decimalOf n.
Proof.
  unfold toFixed. cbn [expo coef Z.opp Z.to_nat normalize Z.leb Z.compare].
  rewrite Z.pow_0_r, Z.mul_1_r. reflexivity.
Qed.

Lemma toFixed_near (n : Z) :
  toFixed (times (mkBig n 0) (tenTo 24)) = decimalOf (n * 10 ^ 24).
Proof.
  unfold toFixed, times, tenTo.
  cbn [expo coef Z.add Z.opp Z.to_nat normalize Z.leb Z.compare].
  rewrite Z.mul_1_r. reflexivity.
Qed.

(** ** The form handlers *)

Lemma gas_budget : App.BOATLOAD_OF_GAS = lit "30000000000000".
Proof. reflexivity. Qed.

(** X10.  Registration asks the ledger for the storage bounds first.  When
    that request is rejected, no deposit is sent and the handler ends with
    the rejection.  When it resolves with a whole minimum in decimal
    notation, of any size, the handler sends one [storage_deposit] for the
    account, registration only, with the gas budget and exactly that minimum
    as the deposit, and returns whether or not the deposit call succeeds. *)
Theorem onRegister_deposits_minimum (contract : Handlers.Ledger)
    (u : Identity) (p : Handlers.Page) :
  (forall e,
      contract Handlers.storage_balance_bounds = Throw e ->
      let p' := fst (Handlers.run contract (Handlers.onRegister (Some u)) p) in
      snd (Handlers.run contract (Handlers.onRegister (Some u)) p)
      = Some (Handlers.Js e)
      /\ Handlers.sent p'
         = Handlers.sent p ++ [Handlers.storage_balance_bounds])
  /\ (forall bounds n,
      contract Handlers.storage_balance_bounds = Normal bounds ->
      (0 <= n)%Z ->
      Handlers.min bounds = decimalOf n ->
      let p' := fst (Handlers.run contract (Handlers.onRegister (Some u)) p) in
      snd (Handlers.run contract (Handlers.onRegister (Some u)) p) = None
      /\ Handlers.sent p'
         = Handlers.sent p
           ++ [Handlers.storage_balance_bounds;
               Handlers.storage_deposit (accountId u) true
                 (lit "30000000000000") (decimalOf n)]).
Proof.
  split.
  - intros e Hb p'. subst p'. unfold Handlers.onRegister.
    cbn [Handlers.run]. rewrite Hb. split; reflexivity.
  - intros bounds n Hb Hn Hmin p'. subst p'. unfold Handlers.onRegister.
    cbn [Handlers.run]. rewrite Hb.
    rewrite Hmin, (parse_decimalOf n Hn), toFixed_whole, gas_budget.
    cbn [Handlers.run].
    destruct (contract (Handlers.storage_deposit _ _ _ _));
      cbn [Handlers.thenLog Handlers.run Handlers.perform fst snd
           Handlers.sent];
      rewrite <- app_assoc; split; reflexivity.
Qed.

Lemma onRegister_sample :
  Handlers.sent
    (fst (Handlers.run Fixtures.accepting
            (Handlers.onRegister (Some Sample.alice)) Fixtures.blank))
  = [Handlers.storage_balance_bounds;
     Handlers.storage_deposit (accountId Sample.alice) true
       (lit "30000000000000") (lit "1250000000000000000000")]
  /\ Handlers.sent
       (fst (Handlers.run Fixtures.failing
               (Handlers.onRegister (Some Sample.alice)) Fixtures.blank))
     = [Handlers.storage_balance_bounds].
Proof.
  destruct (onRegister_deposits_minimum Fixtures.accepting Sample.alice
              Fixtures.blank) as [_ Hok].
  destruct (onRegister_deposits_minimum Fixtures.failing Sample.alice
              Fixtures.blank) as [Hfail _].
  split.
  - refine (proj2 (Hok (Handlers.mkBounds
                          (lit "1250000000000000000000") None)
                       1250000000000000000000%Z eq_refl _ eq_refl)).
    lia.
  - exact (proj2 (Hfail (Rejected (lit "Failed to fetch")) eq_refl)).
Defined.

(** X11.  A donation of a whole number [n] of NEAR, entered in decimal
    notation, sends one [donate] call with the gas budget and exactly
    [n * 10^24] yoctoNEAR attached; the default action of the submit is
    prevented and the fieldset is disabled and stays so, whether the call
    succeeds or is rejected.  An amount that big.js does not accept makes
    the handler fail after the fieldset is disabled, with no call sent. *)
Theorem onDonate_attaches_amount (contract : Handlers.Ledger)
    (donation : jsstring) (p : Handlers.Page) :
  (forall n,
      (0 <= n)%Z -> donation = decimalOf n ->
      let p' := fst (Handlers.run contract (Handlers.onDonate donation) p) in
      snd (Handlers.run contract (Handlers.onDonate donation) p) = None
      /\ Handlers.sent p'
         = Handlers.sent p
           ++ [Handlers.donate (lit "30000000000000")
                               (decimalOf (n * 10 ^ 24))]
      /\ Handlers.fieldsetDisabled p' = true
      /\ Handlers.defaultPrevented p' = true)
  /\ (BigJs.parse donation = None ->
      Handlers.run contract (Handlers.onDonate donation) p
      = (Handlers.mkPage true true (Handlers.sent p) (Handlers.console p),
         Some Handlers.InvalidNumber)).
Proof.
  split.
  - intros n Hn -> p'. subst p'. unfold Handlers.onDonate.
    cbn [Handlers.run].
    rewrite (parse_decimalOf n Hn), toFixed_near, gas_budget.
    cbn [Handlers.run].
    destruct (contract (Handlers.donate _ _)); repeat split.
  - intros Hbad. unfold Handlers.onDonate. cbn [Handlers.run].
    rewrite Hbad. reflexivity.
Qed.

Lemma onDonate_sample :
  Handlers.sent
    (fst (Handlers.run Fixtures.accepting (Handlers.onDonate (lit "25"))
            Fixtures.blank))
  = [Handlers.donate (lit "30000000000000")
                     (lit "25000000000000000000000000")]
  /\ Handlers.run Fixtures.accepting (Handlers.onDonate []) Fixtures.blank
     = (Handlers.mkPage true true [] [], Some Handlers.InvalidNumber).
Proof.
  destruct (onDonate_attaches_amount Fixtures.accepting (lit "25")
              Fixtures.blank) as [Hok _].
  destruct (onDonate_attaches_amount Fixtures.accepting []
              Fixtures.blank) as [_ Hbad].
  split.
  - refine (proj1 (proj2 (Hok 25%Z _ eq_refl))). lia.
  - exact (Hbad eq_refl).
Defined.

(** X12.  Publishing sends one [add_deed] call: the signed-in account as
    author, the three form values as they were entered, the gas budget and
    a deposit of 10^22 yoctoNEAR (0.01 NEAR).  The fieldset is disabled
    before the call and nothing enables it again, also when the call is
    rejected; the console line is written only when the call resolves. *)
Theorem onPublishDeed_request (contract : Handlers.Ledger) (u : Identity)
    (form : Handlers.PublishForm) (p : Handlers.Page) :
  let sentCall :=
    Handlers.add_deed (accountId u) (Handlers.title_prompt form)
      (Handlers.description_prompt form) (Handlers.proof_prompt form)
      (lit "30000000000000") (decimalOf (10 ^ 22)) in
  let p' := fst (Handlers.run contract
                   (Handlers.onPublishDeed (Some u) form) p) in
  snd (Handlers.run contract (Handlers.onPublishDeed (Some u) form) p) = None
  /\ Handlers.sent p' = Handlers.sent p ++ [sentCall]
  /\ Handlers.fieldsetDisabled p' = true
  /\ Handlers.defaultPrevented p' = true
  /\ Handlers.console p'
     = Handlers.console p
       ++ match contract sentCall with
          | Normal _ => [lit "Successfully published."]
          | Throw _ => []
          end.
Proof.
  intros sentCall p'. subst sentCall p'. unfold Handlers.onPublishDeed.
  cbn [Handlers.run].
  change (BigJs.parse (lit "0.01")) with (Some (mkBig 1 (-2))).
  change (toFixed (times (mkBig 1 (-2)) (tenTo 24)))
    with (decimalOf (10 ^ 22)).
  rewrite gas_budget. cbn [Handlers.run].
  destruct (contract (Handlers.add_deed _ _ _ _ _ _));
    cbn [Handlers.thenLog Handlers.run Handlers.perform fst snd
         Handlers.sent Handlers.console Handlers.fieldsetDisabled
         Handlers.defaultPrevented];
    rewrite ?app_nil_r; repeat split.
Qed.
